(** * Step-by-step Tetris: the simulation core of [main.py]

    A shallow embedding of the piece / grid / controller logic of the
    program, followed by the properties of its specification.  The Tk
    widgets (canvas, label, buttons) only display the state and are left out;
    [update_display] and the label refresh have no effect on the three
    fields modelled here.

    Conventions.
    - Python integers are [Z]; [%] with a positive divisor is [Z.modulo] and
      [divmod] on a non-negative number is [Z.div] / [Z.modulo].
    - A Python list is a [list]; indexing follows Python: an index [i] with
      [-len <= i < 0] denotes position [len + i], any index outside
      [-len <= i < len] raises [IndexError].
    - Grid cells are strings: [''] is an empty cell, a shape key a locked one.
    - [random.choice] is an oracle: every operation that may draw a shape
      takes the drawn shape as an argument. *)

From Stdlib Require Import ZArith String Ascii.
From stdpp Require Import base list strings.

Local Open Scope Z_scope.

(** ** Results of operations that can raise *)

Inductive result (A : Type) : Type :=
  | Ok (a : A)
  | IndexError
  | OutOfFuel.
Arguments Ok {A} a.
Arguments IndexError {A}.
Arguments OutOfFuel {A}.

#[global] Instance result_ret : MRet result := fun A a => Ok a.
#[global] Instance result_bind : MBind result := fun A B f m =>
  match m with
  | Ok a => f a
  | IndexError => IndexError
  | OutOfFuel => OutOfFuel
  end.

(** ** Python list indexing *)

Definition py_index {A} (l : list A) (i : Z) : option nat :=
  let n := Z.of_nat (length l) in
  if decide (0 <= i < n) then Some (Z.to_nat i)
  else if decide (- n <= i < 0) then Some (Z.to_nat (n + i))
  else None.

Definition py_getitem {A} (l : list A) (i : Z) : result A :=
  match py_index l i with
  | Some k => match l !! k with Some a => Ok a | None => IndexError end
  | None => IndexError
  end.

Definition py_setitem {A} (l : list A) (i : Z) (v : A) : result (list A) :=
  match py_index l i with
  | Some k => Ok (<[k:=v]> l)
  | None => IndexError
  end.

(** ** The shape table *)

Inductive Shape : Type := KO | KI | KJ | KL | KT | KZ | KS.

#[global] Instance Shape_eq_dec : EqDecision Shape.
Proof. solve_decision. Defined.

(** The dictionary key of a shape, which is also what a locked cell holds. *)
Definition key (s : Shape) : string :=
  match s with
  | KO => "O" | KI => "I" | KJ => "J" | KL => "L"
  | KT => "T" | KZ => "Z" | KS => "S"
  end.

Definition shapes (s : Shape) : list string :=
  match s with
  | KO => ["56a9"; "6a95"; "a956"; "956a"]
  | KI => ["4567"; "26ae"; "ba98"; "d951"]
  | KJ => ["0456"; "2159"; "a654"; "8951"]
  | KL => ["2654"; "a951"; "8456"; "0159"]
  | KT => ["1456"; "6159"; "9654"; "4951"]
  | KZ => ["0156"; "2659"; "a954"; "8451"]
  | KS => ["1254"; "a651"; "8956"; "0459"]
  end.

Definition all_shapes : list Shape := [KO; KI; KJ; KL; KT; KZ; KS].

(** [int(char, 16)] on one character.  [None] stands for [ValueError]. *)
Definition hex_value (c : ascii) : option Z :=
  let n := Z.of_nat (nat_of_ascii c) in
  if (48 <=? n) && (n <=? 57) then Some (n - 48)
  else if (97 <=? n) && (n <=? 102) then Some (n - 87)
  else if (65 <=? n) && (n <=? 70) then Some (n - 55)
  else None.

(** The table holds hexadecimal digits only (lemma [shapes_hex] below), so
    the conversion is used as a total function on it. *)
Definition int16 (c : ascii) : Z := default 0 (hex_value c).

(** ** Pieces *)

Module TetrisPiece.

Record t : Type := mk { shape : Shape; x : Z; y : Z; rot : Z }.

(** The generator [get_blocks], as the list of the pairs it yields. *)
Definition get_blocks (self : t) : list (Z * Z) :=
  (fun char =>
     let v := int16 char in
     let y := v / 4 in
     let x := v mod 4 in
     (self.(TetrisPiece.x) + x, self.(TetrisPiece.y) - y))
  <$> list_ascii_of_string
        (nth (Z.to_nat (self.(rot) mod 4)) (shapes self.(shape)) EmptyString).

Definition move (self : t) (dx dy drot : Z) : t :=
  {| shape := self.(shape);
     x := self.(x) + dx;
     y := self.(y) + dy;
     rot := (self.(rot) + drot) mod 4 |}.

End TetrisPiece.

(** ** The grid *)

(** Truth value of a cell: the empty string is false, any other string true. *)
Definition truthy (cell : string) : bool := negb (String.eqb cell EmptyString).

Module TetrisGrid.

Record t : Type := mk { width : Z; height : Z; grid : list (list string) }.

(** [[''] * width]: no cell at all when [width <= 0]. *)
Definition blank_row (width : Z) : list string := replicate (Z.to_nat width) EmptyString.

(** The constructor.  [range(height)] is empty when [height <= 0]; nothing
    in it raises. *)
Definition init (width height : Z) : result t :=
  Ok {| width := width;
        height := height;
        grid := replicate (Z.to_nat height) (blank_row width) |}.

(** [any(cell == '' for cell in row)] *)
Definition has_empty_cell (row : list string) : bool :=
  existsb (fun cell => String.eqb cell EmptyString) row.

(** Returns the grid after the call together with [cleared_rows]. *)
Definition clear_full_rows (self : t) : t * Z :=
  let kept := List.filter has_empty_cell self.(grid) in
  let cleared_rows := self.(height) - Z.of_nat (length kept) in
  ({| width := self.(width);
      height := self.(height);
      grid := replicate (Z.to_nat cleared_rows) (blank_row self.(width)) ++ kept |},
   cleared_rows).

(** The [for] loop of [piece_fits] over the blocks still to be yielded. *)
Fixpoint fits_loop (self : t) (blocks : list (Z * Z)) : result bool :=
  match blocks with
  | [] => Ok true
  | (x, y) :: rest =>
      if negb (bool_decide (0 <= x < self.(width)))
         || negb (bool_decide (0 <= y < self.(height)))
      then Ok false
      else
        row ← py_getitem self.(grid) y;
        cell ← py_getitem row x;
        if truthy cell then Ok false else fits_loop self rest
  end.

Definition piece_fits (self : t) (piece : TetrisPiece.t) : result bool :=
  fits_loop self (TetrisPiece.get_blocks piece).

(** The [for] loop of [place_piece]: [self.grid[y][x] = piece.shape] for each
    block in turn, on the rows as left by the previous assignments. *)
Fixpoint place_loop (rows : list (list string)) (shape : string)
    (blocks : list (Z * Z)) : result (list (list string)) :=
  match blocks with
  | [] => Ok rows
  | (x, y) :: rest =>
      row ← py_getitem rows y;
      row' ← py_setitem row x shape;
      rows' ← py_setitem rows y row';
      place_loop rows' shape rest
  end.

Definition place_piece (self : t) (piece : TetrisPiece.t) : result t :=
  rows ← place_loop self.(grid) (key piece.(TetrisPiece.shape))
           (TetrisPiece.get_blocks piece);
  Ok {| width := self.(width); height := self.(height); grid := rows |}.

End TetrisGrid.

(** ** The controller *)

Module StepTetrisGame.

Record t : Type :=
  mk { grid : TetrisGrid.t; piece : TetrisPiece.t; score : Z }.

(** [choice] is the shape [random.choice] returns. *)
Definition get_next_piece (choice : Shape) : TetrisPiece.t :=
  TetrisPiece.mk choice 4 1 0.

Definition init (choice : Shape) : result t :=
  g ← TetrisGrid.init 10 16;
  Ok {| grid := g; piece := get_next_piece choice; score := 0 |}.

Definition update_score (score cleared_rows : Z) : Z :=
  score + cleared_rows * 100.

(** Attempt a move, undo it when the moved piece does not fit: the common
    shape of [move_left], [move_right] and [rotate_piece]. *)
Definition move_left (self : t) : result t :=
  let p := TetrisPiece.move self.(piece) (-1) 0 0 in
  fits ← TetrisGrid.piece_fits self.(grid) p;
  let p := if negb fits then TetrisPiece.move p 1 0 0 else p in
  Ok {| grid := self.(grid); piece := p; score := self.(score) |}.

Definition move_right (self : t) : result t :=
  let p := TetrisPiece.move self.(piece) 1 0 0 in
  fits ← TetrisGrid.piece_fits self.(grid) p;
  let p := if negb fits then TetrisPiece.move p (-1) 0 0 else p in
  Ok {| grid := self.(grid); piece := p; score := self.(score) |}.

Definition rotate_piece (self : t) : result t :=
  let p := TetrisPiece.move self.(piece) 0 0 1 in
  fits ← TetrisGrid.piece_fits self.(grid) p;
  let p := if negb fits then TetrisPiece.move p 0 0 (-1) else p in
  Ok {| grid := self.(grid); piece := p; score := self.(score) |}.

(** The four statements that [step_down] and [drop_piece] share: lock the
    piece, clear the full rows, update the score, draw the next piece. *)
Definition lock (choice : Shape) (g : TetrisGrid.t) (p : TetrisPiece.t)
    (score : Z) : result t :=
  g' ← TetrisGrid.place_piece g p;
  let '(g'', cleared_rows) := TetrisGrid.clear_full_rows g' in
  Ok {| grid := g'';
        piece := get_next_piece choice;
        score := update_score score cleared_rows |}.

Definition step_down (choice : Shape) (self : t) : result t :=
  let p := TetrisPiece.move self.(piece) 0 1 0 in
  fits ← TetrisGrid.piece_fits self.(grid) p;
  if negb fits then
    let p := TetrisPiece.move p 0 (-1) 0 in
    lock choice self.(grid) p self.(score)
  else Ok {| grid := self.(grid); piece := p; score := self.(score) |}.

(** The [while] loop of [drop_piece]; it returns the piece on which the test
    failed.  [fuel] bounds the number of tests. *)
Fixpoint drop_loop (fuel : nat) (g : TetrisGrid.t) (p : TetrisPiece.t)
    : result TetrisPiece.t :=
  match fuel with
  | O => OutOfFuel
  | S fuel =>
      fits ← TetrisGrid.piece_fits g p;
      if (fits : bool) then drop_loop fuel g (TetrisPiece.move p 0 1 0) else Ok p
  end.

(** A piece whose [y] is [height + 3] or more has every block below the
    grid, so the loop makes at most this many tests (lemma
    [drop_loop_enough]). *)
Definition drop_fuel (g : TetrisGrid.t) (p : TetrisPiece.t) : nat :=
  S (Z.to_nat (g.(TetrisGrid.height) + 3 - p.(TetrisPiece.y))).

Definition drop_piece (choice : Shape) (self : t) : result t :=
  p ← drop_loop (drop_fuel self.(grid) self.(piece)) self.(grid) self.(piece);
  let p := TetrisPiece.move p 0 (-1) 0 in
  lock choice self.(grid) p self.(score).

Definition reset_game (choice : Shape) (self : t) : result t :=
  g ← TetrisGrid.init 10 16;
  Ok {| grid := g; piece := get_next_piece choice; score := 0 |}.

(** The six buttons. *)
Inductive Action : Type :=
  MoveLeft | MoveRight | Rotate | StepDown | DropPiece | ResetGame.

Definition run (a : Action) (choice : Shape) (self : t) : result t :=
  match a with
  | MoveLeft => move_left self
  | MoveRight => move_right self
  | Rotate => rotate_piece self
  | StepDown => step_down choice self
  | DropPiece => drop_piece choice self
  | ResetGame => reset_game choice self
  end.

(** A press sequence, each press with the shape that would be drawn. *)
Fixpoint run_all (presses : list (Action * Shape)) (self : t) : result t :=
  match presses with
  | [] => Ok self
  | (a, choice) :: rest => self' ← run a choice self; run_all rest self'
  end.

(** States the program can be in: after construction and any presses. *)
Inductive reachable : t -> Prop :=
  | reachable_init choice s : init choice = Ok s -> reachable s
  | reachable_run a choice s s' :
      reachable s -> run a choice s = Ok s' -> reachable s'.

(** [places a s q]: pressing [a] in state [s] reaches a call
    [self.grid.place_piece(q)] (in [step_down] and in [drop_piece]); the grid
    at that call is still [s.(grid)]. *)
Inductive places : Action -> t -> TetrisPiece.t -> Prop :=
  | places_step_down s :
      TetrisGrid.piece_fits s.(grid) (TetrisPiece.move s.(piece) 0 1 0)
        = Ok false ->
      places StepDown s
        (TetrisPiece.move (TetrisPiece.move s.(piece) 0 1 0) 0 (-1) 0)
  | places_drop_piece s p :
      drop_loop (drop_fuel s.(grid) s.(piece)) s.(grid) s.(piece) = Ok p ->
      places DropPiece s (TetrisPiece.move p 0 (-1) 0).

(** An item of the canvas: the rectangle [create_rectangle] makes, by its
    two corners.  Every block is drawn with the same fill and outline. *)
Record rectangle : Type := mk_rectangle { x0 : Z; y0 : Z; x1 : Z; y1 : Z }.

Definition draw_block (x y block_size : Z) : rectangle :=
  mk_rectangle (x * block_size) (y * block_size)
    ((x + 1) * block_size) ((y + 1) * block_size).

(** The rectangles drawn for the grid: row by row, one for each cell whose
    content is true. *)
Definition draw_grid (rows : list (list string)) (block_size : Z)
    : list rectangle :=
  mjoin (imap (fun y row =>
           mjoin (imap (fun x cell =>
                    if truthy cell
                    then [draw_block (Z.of_nat x) (Z.of_nat y) block_size]
                    else [])
                  row))
         rows).

(** The items of the canvas after [update_display]: it is emptied, the grid
    is drawn, then the blocks of the current piece. *)
Definition update_display (self : t) : list rectangle :=
  let block_size := 30 in
  draw_grid self.(grid).(TetrisGrid.grid) block_size
  ++ ((fun b : Z * Z => draw_block b.1 b.2 block_size)
      <$> TetrisPiece.get_blocks self.(piece)).

End StepTetrisGame.


(** * Vocabulary of the properties *)

(** Closes a decidable closed goal by evaluating its decision procedure. *)
Ltac by_compute := apply (bool_decide_unpack _); vm_compute; exact I.

(** The offsets [(localX, localY)] of rotation state [r] of a shape. *)
Definition offsets (sh : Shape) (r : nat) : list (Z * Z) :=
  (fun char => (int16 char mod 4, int16 char / 4))
  <$> list_ascii_of_string (nth r (shapes sh) EmptyString).

(** An offset within the 4x4 bounding box. *)
Definition in_box (o : Z * Z) : Prop := 0 <= o.1 < 4 /\ 0 <= o.2 < 4.

#[global] Instance in_box_dec o : Decision (in_box o).
Proof. unfold in_box. apply _. Defined.

(** The four indices of a table entry. *)
Definition rotation_states : list nat := [0; 1; 2; 3]%nat.

(** Where a piece at [(x, y)] puts the cell of offset [o]: the vertical axis
    is inverted. *)
Definition at_offset (x y : Z) (o : Z * Z) : Z * Z := (x + o.1, y - o.2).

(** The shape every grid has from its construction on: [height] rows (none
    when [height <= 0]) of [width] cells each. *)
Definition wf_grid (g : TetrisGrid.t) : Prop :=
  length g.(TetrisGrid.grid) = Z.to_nat g.(TetrisGrid.height)
  /\ Forall (fun row => length row = Z.to_nat g.(TetrisGrid.width))
       g.(TetrisGrid.grid).

(** The content of the cell in column [x] of row [y], both counted from 0. *)
Definition cell (g : TetrisGrid.t) (x y : Z) : option string :=
  g.(TetrisGrid.grid) !! Z.to_nat y ≫= fun row => row !! Z.to_nat x.

(** A block position that passes the two range tests of [piece_fits]. *)
Definition in_bounds (g : TetrisGrid.t) (b : Z * Z) : Prop :=
  0 <= b.1 < g.(TetrisGrid.width) /\ 0 <= b.2 < g.(TetrisGrid.height).

(** A block position that is inside the grid and on an empty cell. *)
Definition free (g : TetrisGrid.t) (b : Z * Z) : Prop :=
  in_bounds g b /\ cell g b.1 b.2 = Some EmptyString.

(** A row is full when none of its cells is empty. *)
Definition full_row (row : list string) : Prop :=
  Forall (fun c => c <> EmptyString) row.

#[global] Instance full_row_dec row : Decision (full_row row).
Proof. unfold full_row. apply _. Defined.

(** A row all of whose cells are empty. *)
Definition empty_row (row : list string) : Prop :=
  Forall (fun c => c = EmptyString) row.

(** A position that Python accepts as an index pair, counting from either
    end. *)
Definition indexable (g : TetrisGrid.t) (b : Z * Z) : Prop :=
  - g.(TetrisGrid.width) <= b.1 < g.(TetrisGrid.width)
  /\ - g.(TetrisGrid.height) <= b.2 < g.(TetrisGrid.height).

(** The position given to a new piece. *)
Definition at_spawn (p : TetrisPiece.t) : Prop :=
  p.(TetrisPiece.x) = 4 /\ p.(TetrisPiece.y) = 1.

(** What holds of every state of the running program: the grid is the
    default 10x16 matrix, the rotation index is reduced, and the piece
    either fits or has not left the position where it was spawned. *)
Definition Inv (s : StepTetrisGame.t) : Prop :=
  wf_grid s.(StepTetrisGame.grid)
  /\ s.(StepTetrisGame.grid).(TetrisGrid.width) = 10
  /\ s.(StepTetrisGame.grid).(TetrisGrid.height) = 16
  /\ 0 <= s.(StepTetrisGame.piece).(TetrisPiece.rot) < 4
  /\ (TetrisGrid.piece_fits s.(StepTetrisGame.grid) s.(StepTetrisGame.piece)
        = Ok true
      \/ at_spawn s.(StepTetrisGame.piece)).

(** The state after construction when [choice] is the first shape drawn. *)
Definition start (choice : Shape) : StepTetrisGame.t :=
  {| StepTetrisGame.grid :=
       TetrisGrid.mk 10 16 (replicate 16 (TetrisGrid.blank_row 10));
     StepTetrisGame.piece := StepTetrisGame.get_next_piece choice;
     StepTetrisGame.score := 0 |}.

(** The state reached by [presses] from [start first]. *)
Definition after (first : Shape) (presses : list (StepTetrisGame.Action * Shape))
    : StepTetrisGame.t :=
  match StepTetrisGame.run_all presses (start first) with
  | Ok s => s
  | _ => start first
  end.

(** Sixteen I pieces dropped one after the other fill columns 4 to 7 up to
    the top row; the seventeenth I piece is spawned onto the last one. *)
Definition topped_out : StepTetrisGame.t :=
  Eval vm_compute in after KI (replicate 16 (StepTetrisGame.DropPiece, KI)).

(** One I piece dropped on the empty grid, then an O piece spawned. *)
Definition I_then_O : StepTetrisGame.t :=
  Eval vm_compute in after KI [(StepTetrisGame.DropPiece, KO)].

(** The specification's reading of a hard drop: press [step_down] again and
    again, stopping after the press that locks the piece.  A press locks
    exactly when the piece moved one row down does not fit.  [fuel] bounds
    the number of presses. *)
Fixpoint step_down_until_lock (fuel : nat) (choice : Shape)
    (s : StepTetrisGame.t) : result StepTetrisGame.t :=
  match fuel with
  | O => OutOfFuel
  | S fuel =>
      fits ← TetrisGrid.piece_fits s.(StepTetrisGame.grid)
               (TetrisPiece.move s.(StepTetrisGame.piece) 0 1 0);
      s' ← StepTetrisGame.step_down choice s;
      if (fits : bool) then step_down_until_lock fuel choice s' else Ok s'
  end.

(** Rows 14 and 15 lack only columns 5 and 6, where an O piece rests. *)
Definition two_rows_short : StepTetrisGame.t :=
  let gap := [key KI; key KI; key KI; key KI; key KI;
              EmptyString; EmptyString; key KI; key KI; key KI] in
  {| StepTetrisGame.grid :=
       TetrisGrid.mk 10 16 (replicate 14 (TetrisGrid.blank_row 10) ++ [gap; gap]);
     StepTetrisGame.piece := TetrisPiece.mk KO 4 16 0;
     StepTetrisGame.score := 300 |}.

(** A method that returns, leaving the grid and the score as they were. *)
Definition keeps_grid_and_score
    (op : StepTetrisGame.t -> result StepTetrisGame.t) (s : StepTetrisGame.t)
    : Prop :=
  exists s', op s = Ok s'
             /\ s'.(StepTetrisGame.grid) = s.(StepTetrisGame.grid)
             /\ s'.(StepTetrisGame.score) = s.(StepTetrisGame.score).

(** A piece turned [k] times, position unchanged. *)
Definition rotated (p : TetrisPiece.t) (k : Z) : TetrisPiece.t :=
  TetrisPiece.mk p.(TetrisPiece.shape) p.(TetrisPiece.x) p.(TetrisPiece.y)
    ((p.(TetrisPiece.rot) + k) mod 4).

(** A 2x3 grid whose first and last rows are full. *)
Definition small_grid : TetrisGrid.t :=
  TetrisGrid.mk 2 3
    [[key KT; key KT]; [EmptyString; key KJ]; [key KS; key KS]].

(** The cell a block position denotes as a Python index pair: a negative
    index counts from the end. *)
Definition target (g : TetrisGrid.t) (b : Z * Z) : Z * Z :=
  (b.1 mod g.(TetrisGrid.width), b.2 mod g.(TetrisGrid.height)).

(** A cell content the game can produce: empty, or the key of a shape. *)
Definition valid_cell (c : string) : Prop :=
  c = EmptyString \/ exists sh, c = key sh.

(** A block position moved by [(dx, dy)]. *)
Definition shifted (dx dy : Z) (b : Z * Z) : Z * Z := (b.1 + dx, b.2 + dy).

(** The three presses that never lock. *)
Definition sideways (a : StepTetrisGame.Action) : Prop :=
  a = StepTetrisGame.MoveLeft \/ a = StepTetrisGame.MoveRight
  \/ a = StepTetrisGame.Rotate.

(** The number of non-empty cells of a grid. *)
Definition occupied (rows : list (list string)) : nat :=
  sum_list ((fun row => length (List.filter truthy row)) <$> rows).

(** The content at column [i] of row [j], by position. *)
Definition at_pos (rows : list (list string)) (i j : nat) : option string :=
  rows !! j ≫= fun row => row !! i.

(** The position written for a block on [h] rows of [w] cells. *)
Definition written (w h : nat) (b : Z * Z) : nat * nat :=
  (Z.to_nat (b.1 mod Z.of_nat w), Z.to_nat (b.2 mod Z.of_nat h)).

(** No row of the grid is full. *)
Definition no_full_row (rows : list (list string)) : Prop :=
  Forall (fun row => ~ full_row row) rows.

(** Every cell of the grid is empty or holds the key of a shape. *)
Definition valid_cells (rows : list (list string)) : Prop :=
  Forall (Forall valid_cell) rows.

(** What else holds of every state of the running program: the cells are
    valid, no row is full, the score is a multiple of 100 that is not
    negative, and a piece that does not fit is as it was spawned. *)
Definition Inv_game (s : StepTetrisGame.t) : Prop :=
  valid_cells s.(StepTetrisGame.grid).(TetrisGrid.grid)
  /\ no_full_row s.(StepTetrisGame.grid).(TetrisGrid.grid)
  /\ (exists n, 0 <= n /\ s.(StepTetrisGame.score) = n * 100)
  /\ (TetrisGrid.piece_fits s.(StepTetrisGame.grid) s.(StepTetrisGame.piece)
        = Ok true
      \/ s.(StepTetrisGame.piece)
         = StepTetrisGame.get_next_piece
             s.(StepTetrisGame.piece).(TetrisPiece.shape)).

(** A piece [n] rows further down. *)
Definition lowered (p : TetrisPiece.t) (n : nat) : TetrisPiece.t :=
  TetrisPiece.mk p.(TetrisPiece.shape) p.(TetrisPiece.x)
    (p.(TetrisPiece.y) + Z.of_nat n) p.(TetrisPiece.rot).

(** * Properties *)

(** ** The shape table *)

(** Every entry of the table is made of hexadecimal digits: [int] never
    raises on it. *)
Lemma shapes_hex sh r char :
  r ∈ rotation_states ->
  char ∈ list_ascii_of_string (nth r (shapes sh) EmptyString) ->
  is_Some (hex_value char).
Proof.
  intros Hr Hc.
  assert (Hall : Forall (fun sh => Forall (fun r =>
            Forall (fun c => is_Some (hex_value c))
              (list_ascii_of_string (nth r (shapes sh) EmptyString)))
            rotation_states) all_shapes).
  { by_compute. }
  assert (Hsh : sh ∈ all_shapes) by (destruct sh; by_compute).
  rewrite Forall_forall in Hall. specialize (Hall sh Hsh).
  rewrite Forall_forall in Hall. specialize (Hall r Hr).
  rewrite Forall_forall in Hall. exact (Hall char Hc).
Qed.

Lemma mod4_cases (n : Z) :
  Z.to_nat (n mod 4) ∈ rotation_states.
Proof.
  pose proof (Z.mod_pos_bound n 4 ltac:(lia)) as H.
  assert (n mod 4 = 0 \/ n mod 4 = 1 \/ n mod 4 = 2 \/ n mod 4 = 3) as Hc by lia.
  unfold rotation_states.
  destruct Hc as [-> | [-> | [-> | ->]]]; by_compute.
Qed.

Lemma offsets_table sh r :
  r ∈ rotation_states ->
  length (offsets sh r) = 4%nat /\ NoDup (offsets sh r) /\ Forall in_box (offsets sh r).
Proof.
  intros Hr.
  assert (Hall : Forall (fun sh => Forall (fun r =>
            length (offsets sh r) = 4%nat /\ NoDup (offsets sh r)
            /\ Forall in_box (offsets sh r)) rotation_states) all_shapes).
  { by_compute. }
  assert (Hsh : sh ∈ all_shapes) by (destruct sh; by_compute).
  rewrite Forall_forall in Hall. specialize (Hall sh Hsh).
  rewrite Forall_forall in Hall. exact (Hall r Hr).
Qed.

#[global] Instance at_offset_inj x y : Inj (=) (=) (at_offset x y).
Proof.
  intros [a b] [c d] H. unfold at_offset in H. simpl in H.
  inversion H. f_equal; lia.
Qed.

Lemma get_blocks_offsets p :
  TetrisPiece.get_blocks p
  = at_offset p.(TetrisPiece.x) p.(TetrisPiece.y)
    <$> offsets p.(TetrisPiece.shape) (Z.to_nat (p.(TetrisPiece.rot) mod 4)).
Proof.
  unfold TetrisPiece.get_blocks, offsets.
  rewrite <- list_fmap_compose. reflexivity.
Qed.

Lemma get_blocks_range p b :
  b ∈ TetrisPiece.get_blocks p ->
  p.(TetrisPiece.x) <= b.1 <= p.(TetrisPiece.x) + 3
  /\ p.(TetrisPiece.y) - 3 <= b.2 <= p.(TetrisPiece.y).
Proof.
  rewrite get_blocks_offsets. intros Hb.
  apply list_elem_of_fmap in Hb as (o & -> & Ho).
  destruct (offsets_table p.(TetrisPiece.shape) _ (mod4_cases p.(TetrisPiece.rot)))
    as (_ & _ & Hbox).
  rewrite Forall_forall in Hbox. specialize (Hbox o Ho).
  unfold in_box in Hbox. unfold at_offset. simpl. lia.
Qed.

Lemma get_blocks_length p : length (TetrisPiece.get_blocks p) = 4%nat.
Proof.
  rewrite get_blocks_offsets, length_fmap.
  apply offsets_table, mod4_cases.
Qed.

(** C9. For each of the seven shapes, at any position and for any rotation
    index (reduced modulo 4, so in particular for 0, 1, 2 and 3),
    [get_blocks] yields exactly four pairwise distinct cells, each of them
    [(x + localX, y - localY)] for an offset within the 4x4 box.  The list
    is a function of the piece alone: enumerating again gives the same four
    cells, and nothing is modified. *)
Theorem get_blocks_four_distinct_cells (sh : Shape) (x y rot : Z) :
  let p := TetrisPiece.mk sh x y rot in
  exists offs : list (Z * Z),
    length offs = 4%nat
    /\ NoDup offs
    /\ Forall (fun o => 0 <= o.1 < 4 /\ 0 <= o.2 < 4) offs
    /\ TetrisPiece.get_blocks p = (fun o => (x + o.1, y - o.2)) <$> offs
    /\ length (TetrisPiece.get_blocks p) = 4%nat
    /\ NoDup (TetrisPiece.get_blocks p).
Proof.
  intros p. exists (offsets sh (Z.to_nat (rot mod 4))).
  destruct (offsets_table sh _ (mod4_cases rot)) as (Hlen & Hnd & Hbox).
  repeat split; try assumption.
  - apply get_blocks_offsets.
  - apply get_blocks_length.
  - rewrite get_blocks_offsets. simpl.
    apply (NoDup_fmap_2 (at_offset x y)). exact Hnd.
Qed.

(** ** Python indexing *)

Lemma py_getitem_nonneg {A} (l : list A) (i : Z) :
  0 <= i < Z.of_nat (length l) ->
  exists a, l !! Z.to_nat i = Some a /\ py_getitem l i = Ok a.
Proof.
  intros Hi. unfold py_getitem, py_index. simpl.
  rewrite decide_True by exact Hi.
  destruct (lookup_lt_is_Some_2 l (Z.to_nat i)) as [a Ha]; [lia|].
  exists a. rewrite Ha. auto.
Qed.

Lemma py_index_Some {A} (l : list A) (i : Z) :
  - Z.of_nat (length l) <= i < Z.of_nat (length l) ->
  exists k, py_index l i = Some k /\ (k < length l)%nat.
Proof.
  intros Hi. unfold py_index. simpl.
  destruct (decide (0 <= i < Z.of_nat (length l))) as [H0 | H0].
  - eexists. split; [reflexivity | lia].
  - rewrite decide_True by lia. eexists. split; [reflexivity | lia].
Qed.

Lemma py_index_None {A} (l : list A) (i : Z) :
  ~ (- Z.of_nat (length l) <= i < Z.of_nat (length l)) -> py_index l i = None.
Proof.
  intros Hi. unfold py_index. simpl.
  rewrite decide_False by lia. rewrite decide_False by lia. reflexivity.
Qed.

(** ** Grids *)

Lemma truthy_false c : truthy c = false <-> c = EmptyString.
Proof.
  unfold truthy. rewrite negb_false_iff. apply String.eqb_eq.
Qed.

Lemma wf_cell g b :
  wf_grid g -> in_bounds g b ->
  exists row c,
    g.(TetrisGrid.grid) !! Z.to_nat b.2 = Some row
    /\ py_getitem g.(TetrisGrid.grid) b.2 = Ok row
    /\ row !! Z.to_nat b.1 = Some c
    /\ py_getitem row b.1 = Ok c
    /\ cell g b.1 b.2 = Some c.
Proof.
  intros [Hh Hw] [Hx Hy].
  destruct (py_getitem_nonneg g.(TetrisGrid.grid) b.2) as (row & Hrow & Hget);
    [lia|].
  assert (Hlen : length row = Z.to_nat g.(TetrisGrid.width)).
  { rewrite Forall_forall in Hw. apply Hw.
    apply list_elem_of_lookup. eauto. }
  destruct (py_getitem_nonneg row b.1) as (c & Hc & Hgetc); [lia|].
  exists row, c. unfold cell. rewrite Hrow. simpl. auto.
Qed.

Lemma fits_loop_spec g blocks :
  wf_grid g ->
  exists r, TetrisGrid.fits_loop g blocks = Ok r
            /\ (r = true <-> Forall (free g) blocks).
Proof.
  intros Hwf. induction blocks as [| [x y] rest IH]; simpl.
  - exists true. split; [reflexivity|]. split; auto.
  - destruct (decide (in_bounds g (x, y))) as [Hin | Hout].
    + destruct (wf_cell g (x, y) Hwf Hin) as (row & c & _ & Hrow & _ & Hc & Hcell).
      simpl in *. destruct Hin as [Hx Hy]. simpl in Hx, Hy.
      rewrite !bool_decide_eq_true_2 by assumption. simpl.
      rewrite Hrow. simpl. rewrite Hc. simpl.
      destruct (truthy c) eqn:Ht.
      * exists false. split; [reflexivity|]. split; [discriminate|].
        intros HF. inversion HF as [| ? ? [_ Hfree] _]; subst.
        simpl in Hfree. rewrite Hcell in Hfree. inversion Hfree; subst.
        discriminate.
      * destruct IH as (r & -> & Hr). exists r. split; [reflexivity|].
        rewrite Hr. apply truthy_false in Ht. subst c.
        split.
        -- intros HF. constructor; [|exact HF]. split; [split|]; assumption.
        -- intros HF. inversion HF; assumption.
    + exists false. split.
      * unfold in_bounds in Hout. simpl in Hout.
        destruct (bool_decide (0 <= x < TetrisGrid.width g)) eqn:Hbx; simpl;
          [|reflexivity].
        destruct (bool_decide (0 <= y < TetrisGrid.height g)) eqn:Hby; simpl;
          [|reflexivity].
        apply bool_decide_eq_true in Hbx. apply bool_decide_eq_true in Hby.
        tauto.
      * split; [discriminate|].
        intros HF. inversion HF as [| ? ? [Hin _] _]. contradiction.
Qed.

(** Without any assumption on the grid: a positive answer means that every
    block passed the two range tests. *)
Lemma fits_loop_true_in_bounds g blocks :
  TetrisGrid.fits_loop g blocks = Ok true -> Forall (in_bounds g) blocks.
Proof.
  induction blocks as [| [x y] rest IH]; simpl; intros H.
  - constructor.
  - destruct (bool_decide (0 <= x < TetrisGrid.width g)) eqn:Hbx; simpl in H;
      [|discriminate].
    destruct (bool_decide (0 <= y < TetrisGrid.height g)) eqn:Hby; simpl in H;
      [|discriminate].
    apply bool_decide_eq_true in Hbx. apply bool_decide_eq_true in Hby.
    destruct (py_getitem (TetrisGrid.grid g) y) as [row | |]; simpl in H;
      try discriminate.
    destruct (py_getitem row x) as [c | |]; simpl in H; try discriminate.
    destruct (truthy c); [discriminate|].
    constructor; [split; assumption | auto].
Qed.

Lemma piece_fits_total g p :
  wf_grid g -> exists r, TetrisGrid.piece_fits g p = Ok r.
Proof.
  intros Hwf.
  destruct (fits_loop_spec g (TetrisPiece.get_blocks p) Hwf) as (r & Hr & _).
  exists r. exact Hr.
Qed.

(** C4. On a grid of [height] rows of [width] cells, [piece_fits] returns
    (it does not raise), and it returns true if and only if each of the four
    blocks of the piece has [0 <= x < width], [0 <= y < height] and lies on
    an empty cell; a block outside the grid in any direction, or on a
    non-empty cell, makes it false.  The query is a function of the grid and
    the piece and yields only a truth value: it changes neither of them. *)
Theorem piece_fits_iff_all_blocks_free (g : TetrisGrid.t) (p : TetrisPiece.t) :
  wf_grid g ->
  exists r : bool,
    TetrisGrid.piece_fits g p = Ok r
    /\ length (TetrisPiece.get_blocks p) = 4%nat
    /\ (r = true <->
        forall x y, (x, y) ∈ TetrisPiece.get_blocks p ->
          0 <= x < g.(TetrisGrid.width)
          /\ 0 <= y < g.(TetrisGrid.height)
          /\ cell g x y = Some EmptyString)
    /\ (r = false <->
        exists x y, (x, y) ∈ TetrisPiece.get_blocks p
          /\ (x < 0 \/ g.(TetrisGrid.width) <= x
              \/ y < 0 \/ g.(TetrisGrid.height) <= y
              \/ exists c, cell g x y = Some c /\ c <> EmptyString)).
Proof.
  intros Hwf.
  destruct (fits_loop_spec g (TetrisPiece.get_blocks p) Hwf) as (r & Hr & Hiff).
  exists r. split; [exact Hr|]. split; [apply get_blocks_length|].
  assert (Hall : r = true <->
        forall x y, (x, y) ∈ TetrisPiece.get_blocks p ->
          0 <= x < g.(TetrisGrid.width)
          /\ 0 <= y < g.(TetrisGrid.height)
          /\ cell g x y = Some EmptyString).
  { rewrite Hiff, Forall_forall. split.
    - intros H x y Hxy. destruct (H _ Hxy) as [[Hx Hy] Hc]. auto.
    - intros H [x y] Hxy. destruct (H _ _ Hxy) as (Hx & Hy & Hc).
      split; [split|]; assumption. }
  split; [exact Hall|].
  split.
  - intros ->.
    destruct (decide (Forall (free g) (TetrisPiece.get_blocks p))) as [HF | HF].
    + apply Hiff in HF. discriminate.
    + apply not_Forall_Exists in HF; [|intros b; apply _].
      apply Exists_exists in HF as ([x y] & Hxy & Hnf).
      exists x, y. split; [exact Hxy|].
      destruct (decide (in_bounds g (x, y))) as [Hin | Hout].
      * destruct (wf_cell g (x, y) Hwf Hin) as (row & c & _ & _ & _ & _ & Hcell).
        simpl in Hcell. right; right; right; right. exists c.
        split; [exact Hcell|]. intros ->. apply Hnf. split; assumption.
      * unfold in_bounds in Hout. simpl in Hout. lia.
  - intros (x & y & Hxy & Hbad). destruct r; [|reflexivity].
    destruct Hall as [Hall _]. destruct (Hall eq_refl x y Hxy) as (Hx & Hy & Hc).
    destruct Hbad as [? | [? | [? | [? | (c & Hc' & Hne)]]]]; try lia.
    rewrite Hc in Hc'. inversion Hc'. subst. contradiction.
Qed.

(** ** Clearing rows *)

Lemma has_empty_cell_false row :
  TetrisGrid.has_empty_cell row = false <-> full_row row.
Proof.
  unfold TetrisGrid.has_empty_cell, full_row.
  induction row as [| c row IH]; simpl.
  - split; [constructor | reflexivity].
  - rewrite orb_false_iff, IH. rewrite String.eqb_neq.
    split.
    + intros [Hc Hr]. constructor; assumption.
    + intros H. inversion H. auto.
Qed.

Lemma has_empty_cell_true row :
  TetrisGrid.has_empty_cell row = true <-> ~ full_row row.
Proof.
  rewrite <- has_empty_cell_false. destruct (TetrisGrid.has_empty_cell row).
  - split; [discriminate | reflexivity].
  - split; [discriminate | intros H; contradiction H; reflexivity].
Qed.

(** The comprehension keeps the rows that are not full, in order, and the
    rows it drops are the full ones. *)
Lemma kept_rows rows :
  List.filter TetrisGrid.has_empty_cell rows
    = filter (fun row => ~ full_row row) rows
  /\ (length (List.filter TetrisGrid.has_empty_cell rows)
      + length (filter full_row rows) = length rows)%nat.
Proof.
  induction rows as [| row rows [IH1 IH2]]; simpl.
  - split; reflexivity.
  - destruct (TetrisGrid.has_empty_cell row) eqn:He.
    + apply has_empty_cell_true in He.
      rewrite filter_cons_True by exact He.
      rewrite (filter_cons_False full_row) by exact He.
      simpl. split; [f_equal; exact IH1 | lia].
    + apply has_empty_cell_false in He.
      rewrite filter_cons_False by (intros Hn; exact (Hn He)).
      rewrite (filter_cons_True full_row) by exact He.
      simpl. split; [exact IH1 | lia].
Qed.

Lemma blank_row_empty w : empty_row (TetrisGrid.blank_row w).
Proof.
  unfold empty_row, TetrisGrid.blank_row.
  apply Forall_forall. intros c Hc.
  apply elem_of_replicate in Hc. tauto.
Qed.

(** C3. On a grid holding [height] rows of which exactly [k] are full,
    wherever they are, [clear_full_rows] returns [k]; the grid keeps its
    dimensions and has [height] rows again; its first [k] rows are entirely
    empty; the other [height - k] rows are the rows of the grid before the
    call that were not full, in their order, so every full row is removed
    in the one pass over the rows as they were before the call.  With
    [k = 0] the result is 0 and the grid is unchanged. *)
Theorem clear_full_rows_removes_full_rows (g : TetrisGrid.t) (k : nat) :
  Z.of_nat (length g.(TetrisGrid.grid)) = g.(TetrisGrid.height) ->
  length (filter full_row g.(TetrisGrid.grid)) = k ->
  let g' := (TetrisGrid.clear_full_rows g).1 in
  (TetrisGrid.clear_full_rows g).2 = Z.of_nat k
  /\ g'.(TetrisGrid.width) = g.(TetrisGrid.width)
  /\ g'.(TetrisGrid.height) = g.(TetrisGrid.height)
  /\ Z.of_nat (length g'.(TetrisGrid.grid)) = g.(TetrisGrid.height)
  /\ take k g'.(TetrisGrid.grid)
     = replicate k (TetrisGrid.blank_row g.(TetrisGrid.width))
  /\ Forall empty_row (take k g'.(TetrisGrid.grid))
  /\ drop k g'.(TetrisGrid.grid)
     = filter (fun row => ~ full_row row) g.(TetrisGrid.grid)
  /\ length (drop k g'.(TetrisGrid.grid))
     = (length g.(TetrisGrid.grid) - k)%nat
  /\ (k = 0%nat -> (TetrisGrid.clear_full_rows g).2 = 0 /\ g' = g).
Proof.
  intros Hh Hk g'.
  destruct (kept_rows g.(TetrisGrid.grid)) as [Hkept Hcount].
  rewrite Hk in Hcount.
  assert (Hn : (TetrisGrid.clear_full_rows g).2 = Z.of_nat k).
  { unfold TetrisGrid.clear_full_rows. simpl. lia. }
  assert (Hrows : g'.(TetrisGrid.grid)
            = replicate k (TetrisGrid.blank_row g.(TetrisGrid.width))
              ++ filter (fun row => ~ full_row row) g.(TetrisGrid.grid)).
  { unfold g', TetrisGrid.clear_full_rows. simpl.
    rewrite <- Hkept. f_equal. f_equal. lia. }
  assert (Htake : take k g'.(TetrisGrid.grid)
            = replicate k (TetrisGrid.blank_row g.(TetrisGrid.width))).
  { rewrite Hrows. rewrite take_app_length'; [reflexivity|].
    symmetry. apply length_replicate. }
  assert (Hdrop : drop k g'.(TetrisGrid.grid)
            = filter (fun row => ~ full_row row) g.(TetrisGrid.grid)).
  { rewrite Hrows. rewrite drop_app_length'; [reflexivity|].
    symmetry. apply length_replicate. }
  split; [exact Hn|].
  split; [reflexivity|]. split; [reflexivity|].
  split.
  { rewrite Hrows, length_app, length_replicate, <- Hkept. lia. }
  split; [exact Htake|].
  split.
  { rewrite Htake. apply Forall_forall. intros row Hrow.
    apply elem_of_replicate in Hrow as [-> _]. apply blank_row_empty. }
  split; [exact Hdrop|].
  split.
  { rewrite Hdrop, <- Hkept. lia. }
  intros ->. split; [exact Hn|].
  unfold g', TetrisGrid.clear_full_rows. simpl.
  assert (Hall : List.filter TetrisGrid.has_empty_cell (TetrisGrid.grid g)
                 = TetrisGrid.grid g).
  { rewrite Hkept.
    apply length_zero_iff_nil in Hk.
    clear -Hk. induction (TetrisGrid.grid g) as [| row rows IH];
      [reflexivity|].
    destruct (decide (full_row row)) as [Hf | Hf].
    - rewrite (filter_cons_True full_row) in Hk by exact Hf. discriminate.
    - rewrite (filter_cons_False full_row) in Hk by exact Hf.
      rewrite filter_cons_True by exact Hf. f_equal. auto. }
  rewrite Hall.
  replace (Z.to_nat (TetrisGrid.height g - Z.of_nat (length (TetrisGrid.grid g))))
    with 0%nat by lia.
  simpl. destruct g; reflexivity.
Qed.

Lemma clear_full_rows_wf g :
  wf_grid g ->
  wf_grid (TetrisGrid.clear_full_rows g).1
  /\ (TetrisGrid.clear_full_rows g).1.(TetrisGrid.width) = g.(TetrisGrid.width)
  /\ (TetrisGrid.clear_full_rows g).1.(TetrisGrid.height) = g.(TetrisGrid.height).
Proof.
  intros [Hh Hw]. split; [|split; reflexivity].
  destruct (kept_rows g.(TetrisGrid.grid)) as [Hkept Hcount].
  unfold wf_grid, TetrisGrid.clear_full_rows. simpl. split.
  - rewrite length_app, length_replicate. lia.
  - apply Forall_app. split.
    + apply Forall_forall. intros row Hrow.
      apply elem_of_replicate in Hrow as [-> _].
      apply length_replicate.
    + rewrite Hkept. apply Forall_forall. intros row Hrow.
      apply list_elem_of_filter in Hrow as [_ Hrow].
      rewrite Forall_forall in Hw. auto.
Qed.

(** ** Placing a piece *)

(** Destructs the first operation of a sequence that returned. *)
Ltac bind_ok H :=
  match type of H with
  | (match ?m with _ => _ end) = Ok _ =>
      let E := fresh "E" in
      destruct m eqn:E; simpl in H; try discriminate H
  | (?m ≫= _) = Ok _ =>
      let E := fresh "E" in
      destruct m eqn:E; simpl in H; try discriminate H
  end.

Lemma py_getitem_Ok {A} (l : list A) i a :
  py_getitem l i = Ok a -> exists k, py_index l i = Some k /\ l !! k = Some a.
Proof.
  unfold py_getitem. intros H.
  destruct (py_index l i) as [k|]; [|discriminate].
  destruct (l !! k) as [a'|] eqn:Hk; [|discriminate].
  inversion H; subst. eauto.
Qed.

Lemma py_setitem_Ok {A} (l : list A) i v l' :
  py_setitem l i v = Ok l' -> exists k, py_index l i = Some k /\ l' = <[k:=v]> l.
Proof.
  unfold py_setitem. intros H.
  destruct (py_index l i) as [k|]; [|discriminate].
  inversion H; subst. eauto.
Qed.

(** The assignments keep the number of rows and the length of every row. *)
Lemma place_loop_shape (w : nat) shape blocks :
  forall rows rows',
    TetrisGrid.place_loop rows shape blocks = Ok rows' ->
    Forall (fun row => length row = w) rows ->
    length rows' = length rows /\ Forall (fun row => length row = w) rows'.
Proof.
  induction blocks as [| [x y] rest IH]; simpl; intros rows rows' H Hw.
  - inversion H; subst. auto.
  - bind_ok H. bind_ok H. bind_ok H.
    apply py_getitem_Ok in E as (k & Hk & Hrow).
    apply py_setitem_Ok in E0 as (j & Hj & ->).
    apply py_setitem_Ok in E1 as (k' & Hk' & ->).
    apply IH in H.
    + rewrite length_insert in H. exact H.
    + apply Forall_insert; [exact Hw|].
      rewrite length_insert. rewrite Forall_forall in Hw. apply Hw.
      apply list_elem_of_lookup. eauto.
Qed.

Lemma in_bounds_indexable g b : in_bounds g b -> indexable g b.
Proof. unfold in_bounds, indexable. lia. Qed.

Lemma place_loop_total (w : nat) shape blocks :
  forall rows,
    Forall (fun row => length row = w) rows ->
    Forall (fun b : Z * Z =>
              - Z.of_nat w <= b.1 < Z.of_nat w
              /\ - Z.of_nat (length rows) <= b.2 < Z.of_nat (length rows))
           blocks ->
    exists rows', TetrisGrid.place_loop rows shape blocks = Ok rows'.
Proof.
  induction blocks as [| [x y] rest IH]; simpl; intros rows Hw Hb.
  - eauto.
  - inversion Hb as [| ? ? [Hx Hy] Hrest]; subst. simpl in Hx, Hy.
    destruct (py_index_Some rows y Hy) as (k & Hk & Hlt).
    destruct (lookup_lt_is_Some_2 rows k Hlt) as [row Hrow].
    assert (Hlen : length row = w).
    { rewrite Forall_forall in Hw. apply Hw. apply list_elem_of_lookup. eauto. }
    destruct (py_index_Some row x) as (j & Hj & _); [rewrite Hlen; exact Hx|].
    assert (Hget : py_getitem rows y = Ok row).
    { unfold py_getitem. rewrite Hk, Hrow. reflexivity. }
    assert (Hset : py_setitem row x shape = Ok (<[j:=shape]> row)).
    { unfold py_setitem. rewrite Hj. reflexivity. }
    assert (Hset' : forall v, py_setitem rows y v = Ok (<[k:=v]> rows)).
    { intros v. unfold py_setitem. rewrite Hk. reflexivity. }
    rewrite Hget. simpl. rewrite Hset. simpl. rewrite Hset'. simpl.
    apply IH.
    + apply Forall_insert; [exact Hw|]. rewrite length_insert. exact Hlen.
    + rewrite length_insert. exact Hrest.
Qed.

Lemma place_piece_shape g p g' :
  wf_grid g -> TetrisGrid.place_piece g p = Ok g' ->
  wf_grid g'
  /\ g'.(TetrisGrid.width) = g.(TetrisGrid.width)
  /\ g'.(TetrisGrid.height) = g.(TetrisGrid.height).
Proof.
  intros [Hh Hw] H. unfold TetrisGrid.place_piece in H. bind_ok H.
  inversion H; subst; clear H.
  destruct (place_loop_shape _ _ _ _ _ E Hw) as [Hlen Hw'].
  unfold wf_grid. simpl. rewrite Hlen. auto.
Qed.

Lemma place_piece_total g p :
  wf_grid g -> Forall (indexable g) (TetrisPiece.get_blocks p) ->
  exists g', TetrisGrid.place_piece g p = Ok g'.
Proof.
  intros [Hh Hw] Hb. unfold TetrisGrid.place_piece.
  destruct (place_loop_total _ (key p.(TetrisPiece.shape))
              (TetrisPiece.get_blocks p) _ Hw) as [rows' ->].
  - eapply Forall_impl; [exact Hb|]. intros b [Hx Hy]. rewrite Hh. lia.
  - simpl. eauto.
Qed.

(** ** Moves *)

Lemma move_rot_range p dx dy drot :
  0 <= (TetrisPiece.move p dx dy drot).(TetrisPiece.rot) < 4.
Proof. simpl. apply Z.mod_pos_bound. lia. Qed.

(** Undoing a move gives the piece back, provided its rotation index was
    reduced, as it is after any [move]. *)
Lemma move_undo p dx dy drot :
  0 <= p.(TetrisPiece.rot) < 4 ->
  TetrisPiece.move (TetrisPiece.move p dx dy drot) (- dx) (- dy) (- drot) = p.
Proof.
  intros Hr. destruct p as [sh x y rot]. unfold TetrisPiece.move. simpl in *.
  f_equal; try lia.
  rewrite Z.add_mod_idemp_l by lia.
  replace (rot + drot + - drot) with rot by lia.
  apply Z.mod_small. exact Hr.
Qed.

Lemma move_zero p :
  0 <= p.(TetrisPiece.rot) < 4 -> TetrisPiece.move p 0 0 0 = p.
Proof.
  intros Hr. destruct p as [sh x y rot]. unfold TetrisPiece.move. simpl in *.
  f_equal; try lia. rewrite Z.add_0_r. apply Z.mod_small. exact Hr.
Qed.

(** In general the rotation index comes back reduced modulo 4, which leaves
    the blocks where they were. *)
Lemma move_undo_blocks p dx dy drot :
  TetrisPiece.get_blocks
    (TetrisPiece.move (TetrisPiece.move p dx dy drot) (- dx) (- dy) (- drot))
  = TetrisPiece.get_blocks p.
Proof.
  destruct p as [sh x y rot]. unfold TetrisPiece.get_blocks, TetrisPiece.move.
  simpl.
  rewrite Z.add_mod_idemp_l by lia.
  replace (rot + drot + - drot) with rot by lia.
  rewrite Z.mod_mod by lia.
  replace (x + dx + - dx) with x by lia.
  replace (y + dy + - dy) with y by lia.
  reflexivity.
Qed.

(** ** Fitting pieces *)

Lemma fits_in_bounds g p :
  TetrisGrid.piece_fits g p = Ok true ->
  Forall (in_bounds g) (TetrisPiece.get_blocks p).
Proof. apply fits_loop_true_in_bounds. Qed.

Lemma fits_indexable g p :
  TetrisGrid.piece_fits g p = Ok true ->
  Forall (indexable g) (TetrisPiece.get_blocks p).
Proof.
  intros H. eapply Forall_impl; [exact (fits_in_bounds _ _ H)|].
  apply in_bounds_indexable.
Qed.

Lemma fits_free g p :
  wf_grid g -> TetrisGrid.piece_fits g p = Ok true ->
  Forall (free g) (TetrisPiece.get_blocks p).
Proof.
  intros Hwf H.
  destruct (fits_loop_spec g (TetrisPiece.get_blocks p) Hwf) as (r & Hr & Hiff).
  unfold TetrisGrid.piece_fits in H. rewrite H in Hr. inversion Hr; subst.
  apply Hiff. reflexivity.
Qed.

(** A piece that fits has its anchor less than three rows below the grid. *)
Lemma fits_y_bound g p :
  TetrisGrid.piece_fits g p = Ok true ->
  p.(TetrisPiece.y) < g.(TetrisGrid.height) + 3.
Proof.
  intros H. apply fits_in_bounds in H.
  pose proof (get_blocks_length p) as Hlen.
  destruct (TetrisPiece.get_blocks p) as [| b rest] eqn:Hb; [discriminate|].
  inversion H as [| ? ? [_ Hy] _]; subst.
  assert (Hin : b ∈ TetrisPiece.get_blocks p) by (rewrite Hb; left).
  apply get_blocks_range in Hin. lia.
Qed.

(** ** The drop loop *)

Lemma py_getitem_no_fuel {A} (l : list A) i : py_getitem l i <> OutOfFuel.
Proof.
  unfold py_getitem. destruct (py_index l i) as [k|]; [|discriminate].
  destruct (l !! k); discriminate.
Qed.

Lemma piece_fits_no_fuel g p : TetrisGrid.piece_fits g p <> OutOfFuel.
Proof.
  unfold TetrisGrid.piece_fits.
  induction (TetrisPiece.get_blocks p) as [| [x y] rest IH]; simpl;
    [discriminate|].
  destruct (negb _ || negb _); [discriminate|].
  pose proof (py_getitem_no_fuel (TetrisGrid.grid g) y) as Hy.
  destruct (py_getitem (TetrisGrid.grid g) y) as [row | |]; simpl;
    [| discriminate | contradiction].
  pose proof (py_getitem_no_fuel row x) as Hx.
  destruct (py_getitem row x) as [c | |]; simpl;
    [| discriminate | contradiction].
  destruct (truthy c); [discriminate | exact IH].
Qed.

(** The fuel given by [drop_fuel] is never used up, whatever the grid and
    the piece: the loop ends on a failed test or on an exception. *)
Lemma drop_loop_enough g :
  forall fuel p,
    (Z.to_nat (g.(TetrisGrid.height) + 3 - p.(TetrisPiece.y)) < fuel)%nat ->
    StepTetrisGame.drop_loop fuel g p <> OutOfFuel.
Proof.
  induction fuel as [| fuel IH]; intros p Hf; [lia|]. simpl.
  pose proof (piece_fits_no_fuel g p) as Hnf.
  destruct (TetrisGrid.piece_fits g p) as [[|] | |] eqn:Hfit; simpl;
    try discriminate; [|contradiction].
  apply IH. apply fits_y_bound in Hfit. simpl. lia.
Qed.

Lemma drop_loop_spec g :
  wf_grid g ->
  forall fuel p,
    (Z.to_nat (g.(TetrisGrid.height) + 3 - p.(TetrisPiece.y)) < fuel)%nat ->
    exists q,
      StepTetrisGame.drop_loop fuel g p = Ok q
      /\ TetrisGrid.piece_fits g q = Ok false
      /\ (TetrisGrid.piece_fits g p = Ok false -> q = p)
      /\ (0 <= p.(TetrisPiece.rot) < 4 ->
          TetrisGrid.piece_fits g p = Ok true ->
          TetrisGrid.piece_fits g (TetrisPiece.move q 0 (-1) 0) = Ok true).
Proof.
  intros Hwf. induction fuel as [| fuel IH]; intros p Hf; [lia|]. simpl.
  destruct (piece_fits_total g p Hwf) as [[|] Hfit]; rewrite Hfit; simpl.
  - destruct (IH (TetrisPiece.move p 0 1 0)) as (q & Hq & Hnot & Hsame & Hprev).
    { apply fits_y_bound in Hfit. simpl. lia. }
    exists q. split; [exact Hq|]. split; [exact Hnot|].
    split; [discriminate|]. intros Hrot _.
    destruct (piece_fits_total g (TetrisPiece.move p 0 1 0) Hwf) as [[|] Hfit'].
    + apply Hprev; [apply move_rot_range | exact Hfit'].
    + rewrite (Hsame Hfit').
      change (TetrisPiece.move (TetrisPiece.move p 0 1 0) 0 (-1) 0)
        with (TetrisPiece.move (TetrisPiece.move p 0 1 0) (- 0) (- (1)) (- 0)).
      rewrite move_undo by exact Hrot. exact Hfit.
  - exists p. split; [reflexivity|]. split; [exact Hfit|].
    split; [reflexivity|]. intros _ H. discriminate.
Qed.

(** ** Locking *)

Lemma lock_total choice g p sc :
  wf_grid g -> Forall (indexable g) (TetrisPiece.get_blocks p) ->
  exists g1,
    TetrisGrid.place_piece g p = Ok g1
    /\ StepTetrisGame.lock choice g p sc
       = Ok {| StepTetrisGame.grid := (TetrisGrid.clear_full_rows g1).1;
               StepTetrisGame.piece := StepTetrisGame.get_next_piece choice;
               StepTetrisGame.score :=
                 sc + (TetrisGrid.clear_full_rows g1).2 * 100 |}.
Proof.
  intros Hwf Hb. destruct (place_piece_total g p Hwf Hb) as [g1 Hg1].
  exists g1. split; [exact Hg1|].
  unfold StepTetrisGame.lock. rewrite Hg1. simpl.
  destruct (TetrisGrid.clear_full_rows g1) as [g2 n]. reflexivity.
Qed.

(** ** Reachable states *)

Lemma spawn_indexable g p dy :
  g.(TetrisGrid.width) = 10 -> g.(TetrisGrid.height) = 16 ->
  at_spawn p -> -1 <= dy <= 0 ->
  Forall (indexable g) (TetrisPiece.get_blocks (TetrisPiece.move p 0 dy 0)).
Proof.
  intros Hw Hh [Hx Hy] Hdy. apply Forall_forall. intros b Hb.
  apply get_blocks_range in Hb. simpl in Hb.
  unfold indexable. rewrite Hw, Hh. lia.
Qed.

Lemma init_Inv choice s : StepTetrisGame.init choice = Ok s -> Inv s.
Proof.
  intros H. inversion H; subst; clear H. unfold Inv. simpl.
  split; [split; [reflexivity | by_compute]|].
  repeat split; try lia. right. split; reflexivity.
Qed.

Lemma same_state (s : StepTetrisGame.t) p :
  p = s.(StepTetrisGame.piece) ->
  {| StepTetrisGame.grid := s.(StepTetrisGame.grid);
     StepTetrisGame.piece := p;
     StepTetrisGame.score := s.(StepTetrisGame.score) |} = s.
Proof. intros ->. destruct s; reflexivity. Qed.

(** The common part of [move_left], [move_right] and [rotate_piece]. *)
Lemma attempt_Inv s dx drot :
  Inv s ->
  exists r,
    TetrisGrid.piece_fits s.(StepTetrisGame.grid)
      (TetrisPiece.move s.(StepTetrisGame.piece) dx 0 drot) = Ok r
    /\ Inv {| StepTetrisGame.grid := s.(StepTetrisGame.grid);
              StepTetrisGame.piece :=
                (let p := TetrisPiece.move s.(StepTetrisGame.piece) dx 0 drot in
                 if negb r then TetrisPiece.move p (- dx) (- 0) (- drot) else p);
              StepTetrisGame.score := s.(StepTetrisGame.score) |}.
Proof.
  intros (Hwf & Hw & Hh & Hrot & Hp).
  destruct (piece_fits_total _
              (TetrisPiece.move s.(StepTetrisGame.piece) dx 0 drot) Hwf)
    as [r Hr].
  exists r. split; [exact Hr|]. destruct r; simpl negb; cbv iota zeta.
  - unfold Inv. cbn [StepTetrisGame.grid StepTetrisGame.piece].
    repeat split; try assumption; try apply Hwf; try apply move_rot_range.
    left. exact Hr.
  - rewrite move_undo by exact Hrot. rewrite same_state by reflexivity.
    unfold Inv. auto.
Qed.

Lemma lock_Inv choice s p :
  Inv s -> Forall (indexable s.(StepTetrisGame.grid)) (TetrisPiece.get_blocks p) ->
  exists s', StepTetrisGame.lock choice s.(StepTetrisGame.grid) p
               s.(StepTetrisGame.score) = Ok s'
             /\ Inv s'.
Proof.
  intros (Hwf & Hw & Hh & Hrot & Hp) Hb.
  destruct (lock_total choice _ p s.(StepTetrisGame.score) Hwf Hb)
    as (g1 & Hg1 & Hlock).
  eexists. split; [exact Hlock|].
  destruct (place_piece_shape _ _ _ Hwf Hg1) as (Hwf1 & Hw1 & Hh1).
  destruct (clear_full_rows_wf g1 Hwf1) as (Hwf2 & Hw2 & Hh2).
  unfold Inv. cbn [StepTetrisGame.grid StepTetrisGame.piece].
  split; [exact Hwf2|]. split; [congruence|]. split; [congruence|].
  split; [simpl; lia|]. right. split; reflexivity.
Qed.

(** From a state of the running program every button returns, without an
    exception, to such a state. *)
Lemma run_Inv a choice s :
  Inv s -> exists s', StepTetrisGame.run a choice s = Ok s' /\ Inv s'.
Proof.
  intros HI. pose proof HI as (Hwf & Hw & Hh & Hrot & Hp).
  destruct a; simpl.
  - destruct (attempt_Inv s (-1) 0 HI) as (r & Hr & HI').
    unfold StepTetrisGame.move_left. rewrite Hr. simpl. eauto.
  - destruct (attempt_Inv s 1 0 HI) as (r & Hr & HI').
    unfold StepTetrisGame.move_right. rewrite Hr. simpl. eauto.
  - destruct (attempt_Inv s 0 1 HI) as (r & Hr & HI').
    unfold StepTetrisGame.rotate_piece. rewrite Hr. simpl. eauto.
  - unfold StepTetrisGame.step_down.
    destruct (piece_fits_total _
                (TetrisPiece.move s.(StepTetrisGame.piece) 0 1 0) Hwf)
      as [r Hr].
    rewrite Hr. simpl. destruct r; simpl.
    + eexists. split; [reflexivity|].
      unfold Inv. cbn [StepTetrisGame.grid StepTetrisGame.piece].
      repeat split; try assumption; try apply Hwf; try apply move_rot_range.
      left. exact Hr.
    + change (TetrisPiece.move (TetrisPiece.move s.(StepTetrisGame.piece) 0 1 0)
                0 (-1) 0)
        with (TetrisPiece.move (TetrisPiece.move s.(StepTetrisGame.piece) 0 1 0)
                (- 0) (- (1)) (- 0)).
      rewrite move_undo by exact Hrot.
      apply lock_Inv; [exact HI|].
      destruct Hp as [Hfit | Hsp].
      * apply fits_indexable. exact Hfit.
      * pose proof (spawn_indexable _ _ 0 Hw Hh Hsp ltac:(lia)) as Hb.
        rewrite move_zero in Hb by exact Hrot. exact Hb.
  - unfold StepTetrisGame.drop_piece.
    destruct (drop_loop_spec _ Hwf
                (StepTetrisGame.drop_fuel s.(StepTetrisGame.grid)
                   s.(StepTetrisGame.piece))
                s.(StepTetrisGame.piece))
      as (q & Hq & Hnot & Hsame & Hprev).
    { unfold StepTetrisGame.drop_fuel. lia. }
    rewrite Hq. simpl.
    apply lock_Inv; [exact HI|].
    destruct (piece_fits_total _ s.(StepTetrisGame.piece) Hwf) as [[|] Hfit].
    + apply fits_indexable. apply Hprev; assumption.
    + rewrite (Hsame Hfit).
      destruct Hp as [Hfit' | Hsp]; [congruence|].
      apply spawn_indexable; [assumption | assumption | assumption | lia].
  - unfold StepTetrisGame.reset_game. simpl. eexists. split; [reflexivity|].
    apply (init_Inv choice). reflexivity.
Qed.

Lemma reachable_Inv s : StepTetrisGame.reachable s -> Inv s.
Proof.
  induction 1 as [choice s Hinit | a choice s s' Hreach IH Hrun].
  - exact (init_Inv _ _ Hinit).
  - destruct (run_Inv a choice s IH) as (s'' & Hrun' & HI).
    rewrite Hrun in Hrun'. inversion Hrun'; subst. exact HI.
Qed.

Lemma reachable_run_all presses :
  forall s s',
    StepTetrisGame.reachable s ->
    StepTetrisGame.run_all presses s = Ok s' ->
    StepTetrisGame.reachable s'.
Proof.
  induction presses as [| [a choice] rest IH]; simpl; intros s s' Hs H.
  - inversion H; subst. exact Hs.
  - bind_ok H. eapply IH; [|exact H].
    eapply StepTetrisGame.reachable_run; eauto.
Qed.

(** ** Concrete states *)

Lemma init_start choice : StepTetrisGame.init choice = Ok (start choice).
Proof. reflexivity. Qed.

Lemma reachable_start choice : StepTetrisGame.reachable (start choice).
Proof. apply (StepTetrisGame.reachable_init choice). apply init_start. Qed.

Lemma reachable_after first presses : StepTetrisGame.reachable (after first presses).
Proof.
  unfold after.
  destruct (StepTetrisGame.run_all presses (start first)) eqn:E;
    try apply reachable_start.
  eapply reachable_run_all; [apply reachable_start | exact E].
Qed.

Lemma reachable_topped_out : StepTetrisGame.reachable topped_out.
Proof.
  exact (reachable_after KI (replicate 16 (StepTetrisGame.DropPiece, KI))).
Qed.

Lemma reachable_I_then_O : StepTetrisGame.reachable I_then_O.
Proof. exact (reachable_after KI [(StepTetrisGame.DropPiece, KO)]). Qed.

(** ** Locking: which piece is placed *)

(** [places] names the argument of the [place_piece] call of each of the
    two methods: the press then continues as [lock] on that piece. *)
Lemma places_runs_lock a choice s q :
  StepTetrisGame.places a s q ->
  StepTetrisGame.run a choice s
  = StepTetrisGame.lock choice s.(StepTetrisGame.grid) q s.(StepTetrisGame.score).
Proof.
  intros H. destruct H as [s Hfit | s p Hloop]; simpl.
  - unfold StepTetrisGame.step_down. rewrite Hfit. reflexivity.
  - unfold StepTetrisGame.drop_piece. rewrite Hloop. reflexivity.
Qed.

(** C1, as stated, fails.  In the reachable state [topped_out] the spawned I
    piece lies on locked cells; [step_down] finds that it cannot move down
    and calls [place_piece] on it where it is, although it does not fit:
    its block in column 4 of row 0 is on a cell that holds an I. *)
Lemma place_piece_called_on_unfit_piece :
  exists (s : StepTetrisGame.t) (q : TetrisPiece.t),
    s = topped_out
    /\ q = TetrisPiece.mk KI 4 1 0
    /\ StepTetrisGame.reachable s
    /\ StepTetrisGame.places StepTetrisGame.StepDown s q
    /\ TetrisGrid.piece_fits s.(StepTetrisGame.grid) q = Ok false
    /\ (4, 0) ∈ TetrisPiece.get_blocks q
    /\ cell s.(StepTetrisGame.grid) 4 0 = Some (key KI).
Proof.
  exists topped_out, (TetrisPiece.mk KI 4 1 0).
  split; [reflexivity|]. split; [reflexivity|].
  split; [exact reachable_topped_out|].
  split.
  { exact (StepTetrisGame.places_step_down topped_out eq_refl). }
  split; [reflexivity|].
  split; [by_compute | reflexivity].
Qed.

(** C1, amended.  In every reachable state in which the current piece fits,
    a press that calls [place_piece] calls it on a piece that fits at that
    moment: each cell it writes has [0 <= x < width], [0 <= y < height] and
    was empty. *)
Theorem place_piece_called_on_fitting_piece
    (s : StepTetrisGame.t) (a : StepTetrisGame.Action) (q : TetrisPiece.t) :
  StepTetrisGame.reachable s ->
  TetrisGrid.piece_fits s.(StepTetrisGame.grid) s.(StepTetrisGame.piece)
    = Ok true ->
  StepTetrisGame.places a s q ->
  TetrisGrid.piece_fits s.(StepTetrisGame.grid) q = Ok true
  /\ forall x y, (x, y) ∈ TetrisPiece.get_blocks q ->
       0 <= x < s.(StepTetrisGame.grid).(TetrisGrid.width)
       /\ 0 <= y < s.(StepTetrisGame.grid).(TetrisGrid.height)
       /\ cell s.(StepTetrisGame.grid) x y = Some EmptyString.
Proof.
  intros Hreach Hfit Hplaces.
  destruct (reachable_Inv s Hreach) as (Hwf & _ & _ & Hrot & _).
  assert (Hq : TetrisGrid.piece_fits s.(StepTetrisGame.grid) q = Ok true).
  { destruct Hplaces as [s Hdown | s p Hloop].
    - change (TetrisPiece.move (TetrisPiece.move s.(StepTetrisGame.piece) 0 1 0)
                0 (-1) 0)
        with (TetrisPiece.move (TetrisPiece.move s.(StepTetrisGame.piece) 0 1 0)
                (- 0) (- (1)) (- 0)).
      rewrite move_undo by exact Hrot. exact Hfit.
    - destruct (drop_loop_spec _ Hwf
                  (StepTetrisGame.drop_fuel s.(StepTetrisGame.grid)
                     s.(StepTetrisGame.piece))
                  s.(StepTetrisGame.piece))
        as (q' & Hq' & _ & _ & Hprev).
      { unfold StepTetrisGame.drop_fuel. lia. }
      rewrite Hloop in Hq'. inversion Hq'; subst q'.
      apply Hprev; assumption. }
  split; [exact Hq|].
  intros x y Hxy. pose proof (fits_free _ _ Hwf Hq) as Hfree.
  rewrite Forall_forall in Hfree.
  destruct (Hfree _ Hxy) as [[Hx Hy] Hc]. auto.
Qed.

Lemma place_piece_called_on_fitting_piece_witness :
  TetrisGrid.piece_fits (start KI).(StepTetrisGame.grid) (TetrisPiece.mk KI 4 16 0)
    = Ok true
  /\ forall x y, (x, y) ∈ TetrisPiece.get_blocks (TetrisPiece.mk KI 4 16 0) ->
       0 <= x < (start KI).(StepTetrisGame.grid).(TetrisGrid.width)
       /\ 0 <= y < (start KI).(StepTetrisGame.grid).(TetrisGrid.height)
       /\ cell (start KI).(StepTetrisGame.grid) x y = Some EmptyString.
Proof.
  apply (place_piece_called_on_fitting_piece (start KI)
           StepTetrisGame.DropPiece (TetrisPiece.mk KI 4 16 0)).
  - apply reachable_start.
  - vm_compute. reflexivity.
  - exact (StepTetrisGame.places_drop_piece (start KI)
             (TetrisPiece.mk KI 4 17 0) eq_refl).
Defined.

(** ** Hard drop against repeated steps *)

(** When the piece fits, the loop of [drop_piece] followed by the lock is
    the repeated [step_down], test for test. *)
Lemma drop_loop_as_steps choice g sc :
  forall fuel p,
    TetrisGrid.piece_fits g p = Ok true ->
    (q ← StepTetrisGame.drop_loop (S fuel) g p;
     StepTetrisGame.lock choice g (TetrisPiece.move q 0 (-1) 0) sc)
    = step_down_until_lock fuel choice
        {| StepTetrisGame.grid := g;
           StepTetrisGame.piece := p;
           StepTetrisGame.score := sc |}.
Proof.
  induction fuel as [| fuel IH]; intros p Hfit.
  - simpl. rewrite Hfit. reflexivity.
  - change (StepTetrisGame.drop_loop (S (S fuel)) g p)
      with (fits ← TetrisGrid.piece_fits g p;
            if (fits : bool)
            then StepTetrisGame.drop_loop (S fuel) g (TetrisPiece.move p 0 1 0)
            else Ok p).
    rewrite Hfit.
    change (step_down_until_lock (S fuel) choice
              {| StepTetrisGame.grid := g;
                 StepTetrisGame.piece := p;
                 StepTetrisGame.score := sc |})
      with (fits ← TetrisGrid.piece_fits g (TetrisPiece.move p 0 1 0);
            s' ← StepTetrisGame.step_down choice
                   {| StepTetrisGame.grid := g;
                      StepTetrisGame.piece := p;
                      StepTetrisGame.score := sc |};
            if (fits : bool) then step_down_until_lock fuel choice s'
            else Ok s').
    unfold StepTetrisGame.step_down.
    cbn [StepTetrisGame.grid StepTetrisGame.piece StepTetrisGame.score].
    destruct (TetrisGrid.piece_fits g (TetrisPiece.move p 0 1 0))
      as [[|] | |] eqn:Hnext.
    + cbn [mbind result_bind negb]. rewrite <- IH by exact Hnext. reflexivity.
    + cbn [mbind result_bind negb].
      change (StepTetrisGame.drop_loop (S fuel) g (TetrisPiece.move p 0 1 0))
        with (fits ← TetrisGrid.piece_fits g (TetrisPiece.move p 0 1 0);
              if (fits : bool)
              then StepTetrisGame.drop_loop fuel g
                     (TetrisPiece.move (TetrisPiece.move p 0 1 0) 0 1 0)
              else Ok (TetrisPiece.move p 0 1 0)).
      rewrite Hnext. cbn [mbind result_bind].
      destruct (StepTetrisGame.lock choice g _ sc); reflexivity.
    + change (StepTetrisGame.drop_loop (S fuel) g (TetrisPiece.move p 0 1 0))
        with (fits ← TetrisGrid.piece_fits g (TetrisPiece.move p 0 1 0);
              if (fits : bool)
              then StepTetrisGame.drop_loop fuel g
                     (TetrisPiece.move (TetrisPiece.move p 0 1 0) 0 1 0)
              else Ok (TetrisPiece.move p 0 1 0)).
      rewrite Hnext. reflexivity.
    + exfalso. exact (piece_fits_no_fuel _ _ Hnext).
Qed.

(** A hard drop of a piece that fits is the repeated [step_down], and both
    return: same grid, same score (one increment), same next piece. *)
Lemma drop_piece_as_steps choice s :
  wf_grid s.(StepTetrisGame.grid) ->
  0 <= s.(StepTetrisGame.piece).(TetrisPiece.rot) < 4 ->
  TetrisGrid.piece_fits s.(StepTetrisGame.grid) s.(StepTetrisGame.piece)
    = Ok true ->
  exists s',
    StepTetrisGame.drop_piece choice s = Ok s'
    /\ step_down_until_lock
         (Z.to_nat (s.(StepTetrisGame.grid).(TetrisGrid.height) + 3
                    - s.(StepTetrisGame.piece).(TetrisPiece.y)))
         choice s = Ok s'.
Proof.
  intros Hwf Hrot Hfit.
  pose proof (drop_loop_as_steps choice s.(StepTetrisGame.grid)
                s.(StepTetrisGame.score)
                (Z.to_nat (s.(StepTetrisGame.grid).(TetrisGrid.height) + 3
                           - s.(StepTetrisGame.piece).(TetrisPiece.y)))
                s.(StepTetrisGame.piece) Hfit) as Heq.
  rewrite same_state in Heq by reflexivity.
  rewrite <- Heq.
  destruct (drop_loop_spec _ Hwf
              (StepTetrisGame.drop_fuel s.(StepTetrisGame.grid)
                 s.(StepTetrisGame.piece))
              s.(StepTetrisGame.piece))
    as (q & Hq & _ & _ & Hprev).
  { unfold StepTetrisGame.drop_fuel. lia. }
  unfold StepTetrisGame.drop_piece.
  change (S (Z.to_nat (TetrisGrid.height (StepTetrisGame.grid s) + 3
                       - TetrisPiece.y (StepTetrisGame.piece s))))
    with (StepTetrisGame.drop_fuel s.(StepTetrisGame.grid)
            s.(StepTetrisGame.piece)).
  rewrite Hq. cbn [mbind result_bind].
  destruct (lock_total choice _ (TetrisPiece.move q 0 (-1) 0)
              s.(StepTetrisGame.score) Hwf) as (g1 & _ & Hlock).
  { apply fits_indexable. apply Hprev; assumption. }
  rewrite Hlock. eauto.
Qed.

(** C2, at a state the program reaches.  After an I piece was dropped on the
    empty grid an O piece is spawned; two of its blocks are above the grid,
    so it does not fit.  [drop_piece] then makes no move down, moves the
    piece one row up and places it at rows -1 and -2, which Python reads as
    the two bottom rows: the O overwrites two cells of the locked I.
    Repeated [step_down] instead brings the O down onto the I and locks it in
    rows 13 and 14.  The two final grids differ. *)
Theorem drop_piece_of_unfit_piece_differs_from_steps :
  StepTetrisGame.reachable I_then_O
  /\ I_then_O.(StepTetrisGame.piece) = TetrisPiece.mk KO 4 1 0
  /\ TetrisGrid.piece_fits I_then_O.(StepTetrisGame.grid)
       I_then_O.(StepTetrisGame.piece) = Ok false
  /\ StepTetrisGame.places StepTetrisGame.DropPiece I_then_O
       (TetrisPiece.mk KO 4 0 0)
  /\ TetrisPiece.get_blocks (TetrisPiece.mk KO 4 0 0)
     = [(5, -1); (6, -1); (6, -2); (5, -2)]
  /\ exists a b : StepTetrisGame.t,
       StepTetrisGame.drop_piece KT I_then_O = Ok a
       /\ step_down_until_lock 16 KT I_then_O = Ok b
       /\ cell I_then_O.(StepTetrisGame.grid) 5 15 = Some (key KI)
       /\ cell a.(StepTetrisGame.grid) 5 15 = Some (key KO)
       /\ cell a.(StepTetrisGame.grid) 5 13 = Some EmptyString
       /\ cell b.(StepTetrisGame.grid) 5 15 = Some (key KI)
       /\ cell b.(StepTetrisGame.grid) 5 13 = Some (key KO)
       /\ a.(StepTetrisGame.grid) <> b.(StepTetrisGame.grid).
Proof.
  split; [exact reachable_I_then_O|].
  split; [reflexivity|]. split; [reflexivity|].
  split.
  { exact (StepTetrisGame.places_drop_piece I_then_O
             (TetrisPiece.mk KO 4 1 0) eq_refl). }
  split; [reflexivity|].
  eexists. eexists.
  split; [vm_compute; reflexivity|].
  split; [vm_compute; reflexivity|].
  repeat (split; [reflexivity|]).
  intros H. apply (f_equal (fun g => cell g 5 13)) in H.
  vm_compute in H. discriminate H.
Qed.

(** ** One step down *)

Lemma move_down p :
  0 <= p.(TetrisPiece.rot) < 4 ->
  TetrisPiece.move p 0 1 0
  = TetrisPiece.mk p.(TetrisPiece.shape) p.(TetrisPiece.x)
      (p.(TetrisPiece.y) + 1) p.(TetrisPiece.rot).
Proof.
  intros Hr. unfold TetrisPiece.move. f_equal; try lia.
  rewrite Z.add_0_r. apply Z.mod_small. exact Hr.
Qed.

Lemma Inv_indexable s :
  Inv s ->
  Forall (indexable s.(StepTetrisGame.grid))
    (TetrisPiece.get_blocks s.(StepTetrisGame.piece)).
Proof.
  intros (Hwf & Hw & Hh & Hrot & [Hfit | Hsp]).
  - apply fits_indexable. exact Hfit.
  - pose proof (spawn_indexable _ _ 0 Hw Hh Hsp ltac:(lia)) as Hb.
    rewrite move_zero in Hb by exact Hrot. exact Hb.
Qed.

(** C5. In every state of the running program one call of [step_down] does
    exactly one of two things, according to whether the piece moved one row
    down fits.  If it fits, the piece is one row lower and the grid and the
    score are as before.  If it does not, the move is undone, the piece is
    placed where it was before the call, the full rows are cleared, 100
    times their number is added to the score, and a new piece is spawned.
    The call always returns. *)
Theorem step_down_moves_or_locks (s : StepTetrisGame.t) (choice : Shape) :
  StepTetrisGame.reachable s ->
  let g := s.(StepTetrisGame.grid) in
  let p := s.(StepTetrisGame.piece) in
  let moved :=
    TetrisPiece.mk p.(TetrisPiece.shape) p.(TetrisPiece.x)
      (p.(TetrisPiece.y) + 1) p.(TetrisPiece.rot) in
  exists fits : bool,
    TetrisGrid.piece_fits g moved = Ok fits
    /\ if fits
       then StepTetrisGame.step_down choice s
            = Ok {| StepTetrisGame.grid := g;
                    StepTetrisGame.piece := moved;
                    StepTetrisGame.score := s.(StepTetrisGame.score) |}
       else exists g1 : TetrisGrid.t,
            TetrisGrid.place_piece g p = Ok g1
            /\ StepTetrisGame.step_down choice s
               = Ok {| StepTetrisGame.grid := (TetrisGrid.clear_full_rows g1).1;
                       StepTetrisGame.piece := StepTetrisGame.get_next_piece choice;
                       StepTetrisGame.score :=
                         s.(StepTetrisGame.score)
                         + (TetrisGrid.clear_full_rows g1).2 * 100 |}.
Proof.
  intros Hreach g p moved.
  pose proof (reachable_Inv s Hreach) as HI.
  pose proof HI as (Hwf & _ & _ & Hrot & _).
  assert (Hmoved : TetrisPiece.move p 0 1 0 = moved) by (apply move_down, Hrot).
  destruct (piece_fits_total g moved Hwf) as [fits Hfits].
  exists fits. split; [exact Hfits|].
  unfold StepTetrisGame.step_down. fold g p. rewrite Hmoved, Hfits.
  cbn [mbind result_bind]. destruct fits; cbn [negb]; [reflexivity|].
  assert (Hback : TetrisPiece.move moved 0 (-1) 0 = p).
  { rewrite <- Hmoved. exact (move_undo p 0 1 0 Hrot). }
  rewrite Hback.
  destruct (lock_total choice g p s.(StepTetrisGame.score) Hwf
              (Inv_indexable s HI)) as (g1 & Hg1 & Hlock).
  exists g1. split; [exact Hg1 | exact Hlock].
Qed.

Lemma step_down_moves_or_locks_witness :
  exists fits : bool,
    TetrisGrid.piece_fits (start KI).(StepTetrisGame.grid)
      (TetrisPiece.mk KI 4 2 0) = Ok fits
    /\ if fits
       then StepTetrisGame.step_down KO (start KI)
            = Ok {| StepTetrisGame.grid := (start KI).(StepTetrisGame.grid);
                    StepTetrisGame.piece := TetrisPiece.mk KI 4 2 0;
                    StepTetrisGame.score := 0 |}
       else exists g1 : TetrisGrid.t,
            TetrisGrid.place_piece (start KI).(StepTetrisGame.grid)
              (TetrisPiece.mk KI 4 1 0) = Ok g1
            /\ StepTetrisGame.step_down KO (start KI)
               = Ok {| StepTetrisGame.grid := (TetrisGrid.clear_full_rows g1).1;
                       StepTetrisGame.piece := StepTetrisGame.get_next_piece KO;
                       StepTetrisGame.score :=
                         0 + (TetrisGrid.clear_full_rows g1).2 * 100 |}.
Proof.
  exact (step_down_moves_or_locks (start KI) KO (reachable_start KI)).
Defined.

(** Two rows completed by one lock score 200, in one addition. *)
Example two_rows_score_200 :
  StepTetrisGame.step_down KT two_rows_short
  = Ok {| StepTetrisGame.grid := (start KT).(StepTetrisGame.grid);
          StepTetrisGame.piece := TetrisPiece.mk KT 4 1 0;
          StepTetrisGame.score := 500 |}.
Proof. vm_compute. reflexivity. Qed.

(** ** Construction *)

(** C6, as stated, fails.  The constructor tests nothing: with a width or a
    height that is zero or negative it returns a grid, without cells or
    without rows.  And an operation other than construction can raise:
    [place_piece] on a piece lying below the grid, which [piece_fits]
    answers false for and no press ever hands to it. *)
Lemma construction_accepts_nonpositive_dimensions :
  TetrisGrid.init 0 0 = Ok (TetrisGrid.mk 0 0 [])
  /\ TetrisGrid.init (-3) 2 = Ok (TetrisGrid.mk (-3) 2 [[]; []])
  /\ TetrisGrid.init 10 (-1) = Ok (TetrisGrid.mk 10 (-1) [])
  /\ TetrisGrid.piece_fits (start KI).(StepTetrisGame.grid)
       (TetrisPiece.mk KI 4 20 0) = Ok false
  /\ TetrisGrid.place_piece (start KI).(StepTetrisGame.grid)
       (TetrisPiece.mk KI 4 20 0) = IndexError.
Proof. repeat split; reflexivity. Qed.

(** C6, amended.  Constructing a grid never fails, whatever the dimensions:
    the width and the height are stored as given, there are [height] rows
    (none when [height <= 0]) of [width] empty cells each (none when
    [width <= 0]).  Constructing the game does not fail either, and from
    every state the program reaches each of the six presses returns a state
    rather than an error. *)
Theorem construction_and_presses_never_fail :
  (forall width height : Z,
     exists g : TetrisGrid.t,
       TetrisGrid.init width height = Ok g
       /\ g.(TetrisGrid.width) = width
       /\ g.(TetrisGrid.height) = height
       /\ length g.(TetrisGrid.grid) = Z.to_nat height
       /\ Forall (fun row => length row = Z.to_nat width /\ empty_row row)
            g.(TetrisGrid.grid))
  /\ (forall choice : Shape,
        exists s, StepTetrisGame.init choice = Ok s)
  /\ (forall (s : StepTetrisGame.t) (a : StepTetrisGame.Action) (choice : Shape),
        StepTetrisGame.reachable s ->
        exists s', StepTetrisGame.run a choice s = Ok s').
Proof.
  split; [|split].
  - intros w h. eexists. split; [reflexivity|]. simpl.
    split; [reflexivity|]. split; [reflexivity|].
    split; [apply length_replicate|].
    apply Forall_forall. intros row Hrow.
    apply elem_of_replicate in Hrow as [-> _].
    split; [apply length_replicate | apply blank_row_empty].
  - intros choice. exists (start choice). apply init_start.
  - intros s a choice Hreach.
    destruct (run_Inv a choice s (reachable_Inv s Hreach)) as (s' & Hrun & _).
    exists s'. exact Hrun.
Qed.

Lemma construction_and_presses_never_fail_witness :
  exists s', StepTetrisGame.run StepTetrisGame.DropPiece KT (start KO) = Ok s'.
Proof.
  exact (proj2 (proj2 construction_and_presses_never_fail)
           (start KO) StepTetrisGame.DropPiece KT (reachable_start KO)).
Defined.

(** ** Sideways moves and rotation *)

(** The three methods differ only by the move they attempt. *)
Lemma attempt_frame s dx drot r :
  TetrisGrid.piece_fits s.(StepTetrisGame.grid)
    (TetrisPiece.move s.(StepTetrisGame.piece) dx 0 drot) = Ok r ->
  exists p',
    (fits ← TetrisGrid.piece_fits s.(StepTetrisGame.grid)
              (TetrisPiece.move s.(StepTetrisGame.piece) dx 0 drot);
     let p := TetrisPiece.move s.(StepTetrisGame.piece) dx 0 drot in
     let p := if negb fits then TetrisPiece.move p (- dx) 0 (- drot) else p in
     Ok {| StepTetrisGame.grid := s.(StepTetrisGame.grid);
           StepTetrisGame.piece := p;
           StepTetrisGame.score := s.(StepTetrisGame.score) |})
    = Ok {| StepTetrisGame.grid := s.(StepTetrisGame.grid);
            StepTetrisGame.piece := p';
            StepTetrisGame.score := s.(StepTetrisGame.score) |}
    /\ (r = false -> 0 <= s.(StepTetrisGame.piece).(TetrisPiece.rot) < 4 ->
        p' = s.(StepTetrisGame.piece)).
Proof.
  intros Hr. rewrite Hr. cbn [mbind result_bind]. eexists.
  split; [reflexivity|]. intros -> Hrot. cbn [negb].
  exact (move_undo _ dx 0 drot Hrot).
Qed.

(** An attempt that does not fit gives the state back. *)
Lemma blocked_attempt s dx drot :
  0 <= s.(StepTetrisGame.piece).(TetrisPiece.rot) < 4 ->
  TetrisGrid.piece_fits s.(StepTetrisGame.grid)
    (TetrisPiece.move s.(StepTetrisGame.piece) dx 0 drot) = Ok false ->
  (fits ← TetrisGrid.piece_fits s.(StepTetrisGame.grid)
            (TetrisPiece.move s.(StepTetrisGame.piece) dx 0 drot);
   let p := TetrisPiece.move s.(StepTetrisGame.piece) dx 0 drot in
   let p := if negb fits then TetrisPiece.move p (- dx) 0 (- drot) else p in
   Ok {| StepTetrisGame.grid := s.(StepTetrisGame.grid);
         StepTetrisGame.piece := p;
         StepTetrisGame.score := s.(StepTetrisGame.score) |})
  = Ok s.
Proof.
  intros Hrot Hr.
  destruct (attempt_frame s dx drot false Hr) as (p' & Heq & Hp').
  rewrite Heq. rewrite (Hp' eq_refl Hrot).
  rewrite same_state by reflexivity. reflexivity.
Qed.

(** Every attempt returns, with the grid and the score it started from. *)
Lemma attempt_keeps s dx drot :
  wf_grid s.(StepTetrisGame.grid) ->
  keeps_grid_and_score
    (fun s =>
       fits ← TetrisGrid.piece_fits s.(StepTetrisGame.grid)
                (TetrisPiece.move s.(StepTetrisGame.piece) dx 0 drot);
       let p := TetrisPiece.move s.(StepTetrisGame.piece) dx 0 drot in
       let p := if negb fits then TetrisPiece.move p (- dx) 0 (- drot) else p in
       Ok {| StepTetrisGame.grid := s.(StepTetrisGame.grid);
             StepTetrisGame.piece := p;
             StepTetrisGame.score := s.(StepTetrisGame.score) |})
    s.
Proof.
  intros Hwf. unfold keeps_grid_and_score. cbv beta.
  destruct (piece_fits_total s.(StepTetrisGame.grid)
              (TetrisPiece.move s.(StepTetrisGame.piece) dx 0 drot) Hwf)
    as [r Hr].
  rewrite Hr. cbn [mbind result_bind]. eexists.
  split; [reflexivity|]. split; reflexivity.
Qed.

(** C8. In a state whose grid has its [height] rows of [width] cells and
    whose rotation index is in [0,4): when the piece moved one column to the
    left (to the right; rotated once) does not fit, [move_left]
    ([move_right]; [rotate_piece]) returns the state unchanged, so the
    piece keeps its x, y and rotation exactly; and in every case the three
    methods return a state with the same grid and the same score. *)
Theorem blocked_move_leaves_state_unchanged (s : StepTetrisGame.t) :
  wf_grid s.(StepTetrisGame.grid) ->
  0 <= s.(StepTetrisGame.piece).(TetrisPiece.rot) < 4 ->
  let g := s.(StepTetrisGame.grid) in
  let p := s.(StepTetrisGame.piece) in
  (TetrisGrid.piece_fits g (TetrisPiece.move p (-1) 0 0) = Ok false ->
   StepTetrisGame.move_left s = Ok s)
  /\ (TetrisGrid.piece_fits g (TetrisPiece.move p 1 0 0) = Ok false ->
      StepTetrisGame.move_right s = Ok s)
  /\ (TetrisGrid.piece_fits g (TetrisPiece.move p 0 0 1) = Ok false ->
      StepTetrisGame.rotate_piece s = Ok s)
  /\ keeps_grid_and_score StepTetrisGame.move_left s
  /\ keeps_grid_and_score StepTetrisGame.move_right s
  /\ keeps_grid_and_score StepTetrisGame.rotate_piece s.
Proof.
  intros Hwf Hrot g p. subst g p.
  split; [exact (blocked_attempt s (-1) 0 Hrot)|].
  split; [exact (blocked_attempt s 1 0 Hrot)|].
  split; [exact (blocked_attempt s 0 1 Hrot)|].
  split; [exact (attempt_keeps s (-1) 0 Hwf)|].
  split; [exact (attempt_keeps s 1 0 Hwf) | exact (attempt_keeps s 0 1 Hwf)].
Qed.

Lemma start_wf choice : wf_grid (start choice).(StepTetrisGame.grid).
Proof. split; [reflexivity | by_compute]. Qed.

Lemma blocked_move_leaves_state_unchanged_witness :
  (TetrisGrid.piece_fits (start KO).(StepTetrisGame.grid)
     (TetrisPiece.move (TetrisPiece.mk KO 4 1 0) (-1) 0 0) = Ok false ->
   StepTetrisGame.move_left (start KO) = Ok (start KO))
  /\ (TetrisGrid.piece_fits (start KO).(StepTetrisGame.grid)
        (TetrisPiece.move (TetrisPiece.mk KO 4 1 0) 1 0 0) = Ok false ->
      StepTetrisGame.move_right (start KO) = Ok (start KO))
  /\ (TetrisGrid.piece_fits (start KO).(StepTetrisGame.grid)
        (TetrisPiece.move (TetrisPiece.mk KO 4 1 0) 0 0 1) = Ok false ->
      StepTetrisGame.rotate_piece (start KO) = Ok (start KO))
  /\ keeps_grid_and_score StepTetrisGame.move_left (start KO)
  /\ keeps_grid_and_score StepTetrisGame.move_right (start KO)
  /\ keeps_grid_and_score StepTetrisGame.rotate_piece (start KO).
Proof.
  apply (blocked_move_leaves_state_unchanged (start KO)).
  - apply start_wf.
  - simpl. lia.
Defined.

Lemma move_rotated p k :
  TetrisPiece.move (rotated p k) 0 0 1 = rotated p (k + 1).
Proof.
  unfold TetrisPiece.move, rotated. simpl. f_equal; try lia.
  rewrite Z.add_mod_idemp_l by lia. f_equal. lia.
Qed.

Lemma rotated_0 p : 0 <= p.(TetrisPiece.rot) < 4 -> rotated p 0 = p.
Proof.
  intros Hr. destruct p as [sh x y rot]. unfold rotated. simpl in *.
  f_equal. rewrite Z.add_0_r. apply Z.mod_small. exact Hr.
Qed.

Lemma rotated_4 p : rotated p 4 = rotated p 0.
Proof.
  unfold rotated. f_equal.
  rewrite Z.add_0_r. rewrite <- (Z.mul_1_l 4) at 1.
  rewrite Z.mod_add by lia. reflexivity.
Qed.

Lemma rotate_piece_fits g p k sc :
  TetrisGrid.piece_fits g (rotated p (k + 1)) = Ok true ->
  StepTetrisGame.rotate_piece
    {| StepTetrisGame.grid := g;
       StepTetrisGame.piece := rotated p k;
       StepTetrisGame.score := sc |}
  = Ok {| StepTetrisGame.grid := g;
          StepTetrisGame.piece := rotated p (k + 1);
          StepTetrisGame.score := sc |}.
Proof.
  intros Hfit. unfold StepTetrisGame.rotate_piece.
  cbn [StepTetrisGame.grid StepTetrisGame.piece StepTetrisGame.score].
  rewrite move_rotated, Hfit. reflexivity.
Qed.

(** C7. For a piece whose rotation index is in [0,4) and whose four rotated
    placements all fit, four calls of [rotate_piece] return the state they
    started from: same rotation index, same position, hence the same
    occupied cells.  The rotation update of [move] is the mathematical
    remainder: the new index is [(rot + drot) mod 4], always in [0,4), and
    rotation 0 with [drot = -1] gives 3. *)
Theorem rotate_four_times_is_identity (s : StepTetrisGame.t) :
  0 <= s.(StepTetrisGame.piece).(TetrisPiece.rot) < 4 ->
  (forall k, 1 <= k <= 4 ->
     TetrisGrid.piece_fits s.(StepTetrisGame.grid)
       (rotated s.(StepTetrisGame.piece) k) = Ok true) ->
  (s1 ← StepTetrisGame.rotate_piece s;
   s2 ← StepTetrisGame.rotate_piece s1;
   s3 ← StepTetrisGame.rotate_piece s2;
   StepTetrisGame.rotate_piece s3) = Ok s
  /\ (forall s4,
        (s1 ← StepTetrisGame.rotate_piece s;
         s2 ← StepTetrisGame.rotate_piece s1;
         s3 ← StepTetrisGame.rotate_piece s2;
         StepTetrisGame.rotate_piece s3) = Ok s4 ->
        s4.(StepTetrisGame.piece).(TetrisPiece.rot)
          = s.(StepTetrisGame.piece).(TetrisPiece.rot)
        /\ TetrisPiece.get_blocks s4.(StepTetrisGame.piece)
           = TetrisPiece.get_blocks s.(StepTetrisGame.piece))
  /\ (forall p dx dy drot,
        (TetrisPiece.move p dx dy drot).(TetrisPiece.rot)
          = (p.(TetrisPiece.rot) + drot) mod 4
        /\ 0 <= (TetrisPiece.move p dx dy drot).(TetrisPiece.rot) < 4)
  /\ (forall sh x y,
        (TetrisPiece.move (TetrisPiece.mk sh x y 0) 0 0 (-1)).(TetrisPiece.rot)
          = 3).
Proof.
  intros Hrot Hfits.
  assert (Hfour : (s1 ← StepTetrisGame.rotate_piece s;
                   s2 ← StepTetrisGame.rotate_piece s1;
                   s3 ← StepTetrisGame.rotate_piece s2;
                   StepTetrisGame.rotate_piece s3) = Ok s).
  { destruct s as [g p sc]. simpl in Hrot, Hfits.
    rewrite <- (rotated_0 p Hrot) at 1.
    rewrite (rotate_piece_fits g p 0 sc) by (apply Hfits; lia).
    cbn [mbind result_bind].
    rewrite (rotate_piece_fits g p (0 + 1) sc) by (apply Hfits; lia).
    cbn [mbind result_bind].
    rewrite (rotate_piece_fits g p (0 + 1 + 1) sc) by (apply Hfits; lia).
    cbn [mbind result_bind].
    rewrite (rotate_piece_fits g p (0 + 1 + 1 + 1) sc) by (apply Hfits; lia).
    change (0 + 1 + 1 + 1 + 1) with 4.
    rewrite rotated_4, (rotated_0 p Hrot). reflexivity. }
  split; [exact Hfour|]. split.
  - intros s4 H4. rewrite Hfour in H4. inversion H4; subst. auto.
  - split.
    + intros p dx dy drot. split; [reflexivity | apply move_rot_range].
    + intros sh x y. reflexivity.
Qed.

Lemma rotate_four_times_is_identity_witness :
  let s := {| StepTetrisGame.grid := (start KT).(StepTetrisGame.grid);
              StepTetrisGame.piece := TetrisPiece.mk KT 4 5 0;
              StepTetrisGame.score := 0 |} in
  (s1 ← StepTetrisGame.rotate_piece s;
   s2 ← StepTetrisGame.rotate_piece s1;
   s3 ← StepTetrisGame.rotate_piece s2;
   StepTetrisGame.rotate_piece s3) = Ok s
  /\ TetrisGrid.piece_fits s.(StepTetrisGame.grid)
       (rotated s.(StepTetrisGame.piece) 1) = Ok true.
Proof.
  intros s.
  assert (Hfits : forall k, 1 <= k <= 4 ->
            TetrisGrid.piece_fits s.(StepTetrisGame.grid)
              (rotated s.(StepTetrisGame.piece) k) = Ok true).
  { intros k Hk.
    assert (k = 1 \/ k = 2 \/ k = 3 \/ k = 4) as [-> | [-> | [-> | ->]]] by lia;
      vm_compute; reflexivity. }
  split.
  - apply (rotate_four_times_is_identity s); [simpl; lia | exact Hfits].
  - apply Hfits. lia.
Defined.

(** ** The O piece at its spawn position *)

Lemma unfit_of_block g p b :
  wf_grid g -> b ∈ TetrisPiece.get_blocks p -> ~ in_bounds g b ->
  TetrisGrid.piece_fits g p = Ok false.
Proof.
  intros Hwf Hb Hout.
  destruct (fits_loop_spec g (TetrisPiece.get_blocks p) Hwf) as (r & Hr & Hiff).
  unfold TetrisGrid.piece_fits. rewrite Hr. destruct r; [|reflexivity].
  exfalso. apply Hout.
  destruct Hiff as [Hall _]. specialize (Hall eq_refl).
  rewrite Forall_forall in Hall. apply (Hall b Hb).
Qed.

(** C10. A freshly spawned O piece is at x = 4, y = 1 with rotation 0; its
    blocks are (5,0), (6,0), (6,-1), (5,-1), two of them in row -1.  So
    [piece_fits] is false for it on the empty 10x16 grid, and on any grid;
    moved one column to either side or rotated once it still has blocks in
    row -1, so [move_left], [move_right] and [rotate_piece] return the state
    unchanged.  Each of the other six shapes fits where it is spawned on
    the empty 10x16 grid. *)
Theorem fresh_O_piece_does_not_fit :
  let p := StepTetrisGame.get_next_piece KO in
  p = TetrisPiece.mk KO 4 1 0
  /\ TetrisPiece.get_blocks p = [(5, 0); (6, 0); (6, -1); (5, -1)]
  /\ length (filter (fun b : Z * Z => b.2 = -1) (TetrisPiece.get_blocks p)) = 2%nat
  /\ TetrisGrid.init 10 16 = Ok (start KO).(StepTetrisGame.grid)
  /\ Forall (Forall (fun c => c = EmptyString))
       (start KO).(StepTetrisGame.grid).(TetrisGrid.grid)
  /\ TetrisGrid.piece_fits (start KO).(StepTetrisGame.grid) p = Ok false
  /\ (forall g sc,
        wf_grid g ->
        let s := {| StepTetrisGame.grid := g;
                    StepTetrisGame.piece := p;
                    StepTetrisGame.score := sc |} in
        TetrisGrid.piece_fits g p = Ok false
        /\ StepTetrisGame.move_left s = Ok s
        /\ StepTetrisGame.move_right s = Ok s
        /\ StepTetrisGame.rotate_piece s = Ok s)
  /\ (forall sh, sh <> KO ->
        TetrisGrid.piece_fits (start sh).(StepTetrisGame.grid)
          (StepTetrisGame.get_next_piece sh) = Ok true).
Proof.
  intros p.
  split; [reflexivity|]. split; [reflexivity|]. split; [reflexivity|].
  split; [reflexivity|]. split; [by_compute|]. split; [reflexivity|].
  split.
  - intros g sc Hwf s.
    assert (Hout : forall x, ~ in_bounds g (x, -1)).
    { intros x [_ Hy]. simpl in Hy. lia. }
    assert (Hrot : 0 <= (StepTetrisGame.piece s).(TetrisPiece.rot) < 4)
      by (simpl; lia).
    split.
    + apply (unfit_of_block g p (5, -1) Hwf); [by_compute | apply Hout].
    + split; [|split].
      * apply (blocked_attempt s (-1) 0 Hrot).
        apply (unfit_of_block g _ (4, -1) Hwf); [by_compute | apply Hout].
      * apply (blocked_attempt s 1 0 Hrot).
        apply (unfit_of_block g _ (6, -1) Hwf); [by_compute | apply Hout].
      * apply (blocked_attempt s 0 1 Hrot).
        apply (unfit_of_block g _ (5, -1) Hwf); [by_compute | apply Hout].
  - intros sh Hsh. destruct sh; try reflexivity. contradiction.
Qed.

Lemma fresh_O_piece_does_not_fit_witness :
  StepTetrisGame.move_left (start KO) = Ok (start KO)
  /\ StepTetrisGame.move_right (start KO) = Ok (start KO)
  /\ StepTetrisGame.rotate_piece (start KO) = Ok (start KO)
  /\ TetrisGrid.piece_fits (start KI).(StepTetrisGame.grid)
       (StepTetrisGame.get_next_piece KI) = Ok true.
Proof.
  destruct fresh_O_piece_does_not_fit as (_ & _ & _ & _ & _ & _ & Hany & Hothers).
  destruct (Hany (start KO).(StepTetrisGame.grid) 0 (start_wf KO))
    as (_ & Hl & Hr & Hrt).
  split; [exact Hl|]. split; [exact Hr|]. split; [exact Hrt|].
  apply Hothers. discriminate.
Defined.

(** ** The grid theorems at concrete grids *)

Lemma clear_full_rows_removes_full_rows_witness :
  (TetrisGrid.clear_full_rows small_grid).2 = 2
  /\ (TetrisGrid.clear_full_rows small_grid).1.(TetrisGrid.grid)
     = [[EmptyString; EmptyString]; [EmptyString; EmptyString];
        [EmptyString; key KJ]].
Proof.
  destruct (clear_full_rows_removes_full_rows small_grid 2)
    as (Hn & _ & _ & _ & Htake & _ & Hdrop & _).
  - reflexivity.
  - vm_compute. reflexivity.
  - split; [exact Hn|].
    rewrite <- (take_drop 2 (TetrisGrid.grid (TetrisGrid.clear_full_rows small_grid).1)).
    rewrite Htake, Hdrop. vm_compute. reflexivity.
Defined.

Lemma piece_fits_iff_all_blocks_free_witness :
  exists r : bool,
    TetrisGrid.piece_fits small_grid (TetrisPiece.mk KO 0 2 0) = Ok r
    /\ r = false.
Proof.
  destruct (piece_fits_iff_all_blocks_free small_grid (TetrisPiece.mk KO 0 2 0))
    as (r & Hr & _ & _ & Hfalse).
  - split; [reflexivity | by_compute].
  - exists r. split; [exact Hr|]. apply Hfalse.
    exists 1, 1. split; [by_compute|].
    right; right; right; right. exists (key KJ).
    split; [reflexivity | discriminate].
Defined.

(** * Further properties of the code *)

(** ** Moves and blocks *)

(** X1. A move without a turn (a rotation change that is a multiple of 4)
    translates every block by [(dx, dy)], in the order they are yielded. *)
Theorem move_translates_blocks (p : TetrisPiece.t) (dx dy drot : Z) :
  drot mod 4 = 0 ->
  TetrisPiece.get_blocks (TetrisPiece.move p dx dy drot)
  = shifted dx dy <$> TetrisPiece.get_blocks p.
Proof.
  intros Hd. rewrite !get_blocks_offsets. simpl.
  rewrite Z.add_mod by lia. rewrite Hd, Z.add_0_r, !Z.mod_mod by lia.
  rewrite <- list_fmap_compose. apply list_fmap_ext.
  intros i [ox oy] _. unfold shifted, at_offset. simpl. f_equal; lia.
Qed.

Lemma move_translates_blocks_witness :
  TetrisPiece.get_blocks (TetrisPiece.move (TetrisPiece.mk KT 4 1 2) (-1) 3 4)
  = shifted (-1) 3 <$> TetrisPiece.get_blocks (TetrisPiece.mk KT 4 1 2).
Proof.
  apply (move_translates_blocks (TetrisPiece.mk KT 4 1 2) (-1) 3 4).
  reflexivity.
Defined.

(** X2. Two moves in a row are one move by the sums of the displacements
    and of the turns, whatever the rotation index was: the reduction modulo
    4 after the first move does not change the outcome of the second. *)
Theorem move_move (p : TetrisPiece.t) (dx dy drot dx' dy' drot' : Z) :
  TetrisPiece.move (TetrisPiece.move p dx dy drot) dx' dy' drot'
  = TetrisPiece.move p (dx + dx') (dy + dy') (drot + drot').
Proof.
  unfold TetrisPiece.move. simpl. f_equal; try lia.
  rewrite Z.add_mod_idemp_l by lia. f_equal. lia.
Qed.

(** ** Sideways presses *)

(** What a sideways press leaves: the blocks where they were, or a piece
    that fits. *)
Lemma attempt_blocks_or_fits g p sc dx drot s' :
  (fits ← TetrisGrid.piece_fits g (TetrisPiece.move p dx 0 drot);
   let q := TetrisPiece.move p dx 0 drot in
   let q := if negb fits then TetrisPiece.move q (- dx) 0 (- drot) else q in
   Ok {| StepTetrisGame.grid := g;
         StepTetrisGame.piece := q;
         StepTetrisGame.score := sc |}) = Ok s' ->
  s'.(StepTetrisGame.grid) = g
  /\ s'.(StepTetrisGame.score) = sc
  /\ (TetrisPiece.get_blocks s'.(StepTetrisGame.piece) = TetrisPiece.get_blocks p
      \/ TetrisGrid.piece_fits g s'.(StepTetrisGame.piece) = Ok true).
Proof.
  intros H. bind_ok H. inversion H; subst; clear H. simpl.
  split; [reflexivity|]. split; [reflexivity|].
  destruct a; simpl.
  - right. exact E.
  - left. exact (move_undo_blocks p dx 0 drot).
Qed.

Lemma sideways_blocks_or_fits a choice s s' :
  sideways a -> StepTetrisGame.run a choice s = Ok s' ->
  s'.(StepTetrisGame.grid) = s.(StepTetrisGame.grid)
  /\ s'.(StepTetrisGame.score) = s.(StepTetrisGame.score)
  /\ (TetrisPiece.get_blocks s'.(StepTetrisGame.piece)
        = TetrisPiece.get_blocks s.(StepTetrisGame.piece)
      \/ TetrisGrid.piece_fits s.(StepTetrisGame.grid) s'.(StepTetrisGame.piece)
         = Ok true).
Proof.
  intros [-> | [-> | ->]] H; simpl in H.
  - exact (attempt_blocks_or_fits _ _ _ (-1) 0 s' H).
  - exact (attempt_blocks_or_fits _ _ _ 1 0 s' H).
  - exact (attempt_blocks_or_fits _ _ _ 0 1 s' H).
Qed.

(** X3. [move_left], [move_right] and [rotate_piece] never put the piece
    where it does not fit: after the press the blocks are where they were,
    or the piece fits.  So a piece that fits before the press fits after
    it.  No assumption on the state is needed. *)
Theorem sideways_press_keeps_piece_fitting
    (a : StepTetrisGame.Action) (choice : Shape) (s s' : StepTetrisGame.t) :
  sideways a ->
  StepTetrisGame.run a choice s = Ok s' ->
  (TetrisPiece.get_blocks s'.(StepTetrisGame.piece)
     = TetrisPiece.get_blocks s.(StepTetrisGame.piece)
   \/ TetrisGrid.piece_fits s'.(StepTetrisGame.grid) s'.(StepTetrisGame.piece)
      = Ok true)
  /\ (TetrisGrid.piece_fits s.(StepTetrisGame.grid) s.(StepTetrisGame.piece)
        = Ok true ->
      TetrisGrid.piece_fits s'.(StepTetrisGame.grid) s'.(StepTetrisGame.piece)
        = Ok true).
Proof.
  intros Ha Hrun.
  destruct (sideways_blocks_or_fits a choice s s' Ha Hrun) as (Hg & _ & Hp).
  rewrite Hg. split; [exact Hp|].
  intros Hfit. destruct Hp as [Hb | Hf]; [|exact Hf].
  unfold TetrisGrid.piece_fits in *. rewrite Hb. exact Hfit.
Qed.

Lemma sideways_press_keeps_piece_fitting_witness :
  (TetrisPiece.get_blocks (TetrisPiece.mk KI 3 1 0)
     = TetrisPiece.get_blocks (start KI).(StepTetrisGame.piece)
   \/ TetrisGrid.piece_fits (start KI).(StepTetrisGame.grid)
        (TetrisPiece.mk KI 3 1 0) = Ok true)
  /\ (TetrisGrid.piece_fits (start KI).(StepTetrisGame.grid)
        (start KI).(StepTetrisGame.piece) = Ok true ->
      TetrisGrid.piece_fits (start KI).(StepTetrisGame.grid)
        (TetrisPiece.mk KI 3 1 0) = Ok true).
Proof.
  apply (sideways_press_keeps_piece_fitting StepTetrisGame.MoveLeft KO
           (start KI)
           {| StepTetrisGame.grid := (start KI).(StepTetrisGame.grid);
              StepTetrisGame.piece := TetrisPiece.mk KI 3 1 0;
              StepTetrisGame.score := 0 |}).
  - left. reflexivity.
  - reflexivity.
Defined.

(** X4. On a piece that fits and whose rotation index is in [0,4): when the
    place one column to the left is free, [move_left] followed by
    [move_right] gives the state back; likewise [move_right] followed by
    [move_left] when the place to the right is free. *)
Theorem move_left_right_round_trip (s : StepTetrisGame.t) :
  0 <= s.(StepTetrisGame.piece).(TetrisPiece.rot) < 4 ->
  TetrisGrid.piece_fits s.(StepTetrisGame.grid) s.(StepTetrisGame.piece)
    = Ok true ->
  (TetrisGrid.piece_fits s.(StepTetrisGame.grid)
     (TetrisPiece.move s.(StepTetrisGame.piece) (-1) 0 0) = Ok true ->
   (s1 ← StepTetrisGame.move_left s; StepTetrisGame.move_right s1) = Ok s)
  /\ (TetrisGrid.piece_fits s.(StepTetrisGame.grid)
        (TetrisPiece.move s.(StepTetrisGame.piece) 1 0 0) = Ok true ->
      (s1 ← StepTetrisGame.move_right s; StepTetrisGame.move_left s1) = Ok s).
Proof.
  intros Hrot Hfit.
  assert (Hl : TetrisPiece.move
                 (TetrisPiece.move s.(StepTetrisGame.piece) (-1) 0 0) 1 0 0
               = s.(StepTetrisGame.piece))
    by exact (move_undo _ (-1) 0 0 Hrot).
  assert (Hr : TetrisPiece.move
                 (TetrisPiece.move s.(StepTetrisGame.piece) 1 0 0) (-1) 0 0
               = s.(StepTetrisGame.piece))
    by exact (move_undo _ 1 0 0 Hrot).
  split; intros Hside.
  - unfold StepTetrisGame.move_left. rewrite Hside. cbn [mbind result_bind negb].
    unfold StepTetrisGame.move_right.
    cbn [StepTetrisGame.grid StepTetrisGame.piece StepTetrisGame.score].
    rewrite Hl, Hfit. cbn [mbind result_bind negb].
    rewrite same_state by reflexivity. reflexivity.
  - unfold StepTetrisGame.move_right. rewrite Hside. cbn [mbind result_bind negb].
    unfold StepTetrisGame.move_left.
    cbn [StepTetrisGame.grid StepTetrisGame.piece StepTetrisGame.score].
    rewrite Hr, Hfit. cbn [mbind result_bind negb].
    rewrite same_state by reflexivity. reflexivity.
Qed.

Lemma move_left_right_round_trip_witness :
  (TetrisGrid.piece_fits (start KI).(StepTetrisGame.grid)
     (TetrisPiece.move (start KI).(StepTetrisGame.piece) (-1) 0 0) = Ok true ->
   (s1 ← StepTetrisGame.move_left (start KI); StepTetrisGame.move_right s1)
   = Ok (start KI))
  /\ (TetrisGrid.piece_fits (start KI).(StepTetrisGame.grid)
        (TetrisPiece.move (start KI).(StepTetrisGame.piece) 1 0 0) = Ok true ->
      (s1 ← StepTetrisGame.move_right (start KI); StepTetrisGame.move_left s1)
      = Ok (start KI)).
Proof.
  apply (move_left_right_round_trip (start KI)).
  - simpl. lia.
  - reflexivity.
Defined.

(** ** What [place_piece] writes *)

Lemma py_index_spec {A} (l : list A) (i : Z) (k : nat) :
  py_index l i = Some k <->
  - Z.of_nat (length l) <= i < Z.of_nat (length l)
  /\ k = Z.to_nat (i mod Z.of_nat (length l)).
Proof.
  unfold py_index. simpl.
  destruct (decide (0 <= i < Z.of_nat (length l))) as [H0 | H0].
  - rewrite Z.mod_small by exact H0. split.
    + intros H. inversion H. split; [lia | reflexivity].
    + intros [_ ->]. reflexivity.
  - destruct (decide (- Z.of_nat (length l) <= i < 0)) as [H1 | H1].
    + assert (Hm : i mod Z.of_nat (length l) = Z.of_nat (length l) + i).
      { symmetry. apply (Z.mod_unique_pos _ _ (-1)); lia. }
      rewrite Hm. split.
      * intros H. inversion H. split; [lia | reflexivity].
      * intros [_ ->]. reflexivity.
    + split; [discriminate | intros [H _]; lia].
Qed.

Lemma at_pos_insert rows row ky kx v i j :
  rows !! ky = Some row -> (kx < length row)%nat ->
  at_pos (<[ky := <[kx := v]> row]> rows) i j
  = if decide (i = kx /\ j = ky) then Some v else at_pos rows i j.
Proof.
  intros Hrow Hkx. unfold at_pos.
  pose proof (lookup_lt_Some _ _ _ Hrow) as Hky.
  destruct (decide (j = ky)) as [-> | Hj].
  - rewrite list_lookup_insert_eq by exact Hky. simpl. rewrite Hrow. simpl.
    destruct (decide (i = kx)) as [-> | Hi].
    + rewrite list_lookup_insert_eq by exact Hkx.
      rewrite decide_True by auto. reflexivity.
    + rewrite list_lookup_insert_ne by auto.
      rewrite decide_False by tauto. reflexivity.
  - rewrite list_lookup_insert_ne by auto.
    rewrite decide_False by tauto. reflexivity.
Qed.

Lemma place_loop_at_pos (w h : nat) shape blocks :
  forall rows rows',
    length rows = h ->
    Forall (fun row => length row = w) rows ->
    TetrisGrid.place_loop rows shape blocks = Ok rows' ->
    Forall (fun b : Z * Z =>
              - Z.of_nat w <= b.1 < Z.of_nat w
              /\ - Z.of_nat h <= b.2 < Z.of_nat h) blocks
    /\ forall i j,
         at_pos rows' i j
         = if decide ((i, j) ∈ written w h <$> blocks) then Some shape
           else at_pos rows i j.
Proof.
  induction blocks as [| [x y] rest IH]; intros rows rows' Hh Hw H; simpl in H.
  - inversion H; subst. split; [constructor|]. intros i j.
    rewrite fmap_nil.
    rewrite decide_False; [reflexivity | apply not_elem_of_nil].
  - bind_ok H. bind_ok H. bind_ok H.
    apply py_getitem_Ok in E as (ky & Hky & Hrow).
    apply py_setitem_Ok in E0 as (kx & Hkx & ->).
    apply py_setitem_Ok in E1 as (ky' & Hky' & ->).
    rewrite Hky in Hky'. inversion Hky'; subst ky'; clear Hky'.
    assert (Hlen : length a = w).
    { rewrite Forall_forall in Hw. apply Hw. apply list_elem_of_lookup. eauto. }
    apply py_index_spec in Hky as [Hy ->].
    apply py_index_spec in Hkx as [Hx ->].
    rewrite Hh in *. rewrite Hlen in *.
    apply IH in H as [Hrest Hat].
    + split; [constructor; [split; assumption | exact Hrest]|].
      intros i j. rewrite Hat. rewrite fmap_cons.
      rewrite at_pos_insert;
        [| exact Hrow | rewrite Hlen; pose proof (Z.mod_pos_bound x (Z.of_nat w)); lia].
      destruct (decide ((i, j) ∈ written w h <$> rest)) as [Hin | Hnin].
      * rewrite decide_True; [reflexivity | right; exact Hin].
      * destruct (decide (i = Z.to_nat (x mod Z.of_nat w)
                          /\ j = Z.to_nat (y mod Z.of_nat h))) as [[-> ->] | Hne].
        -- rewrite decide_True; [reflexivity | left].
        -- rewrite decide_False; [reflexivity|].
           intros Hin. apply elem_of_cons in Hin as [Heq | Hin]; [|contradiction].
           unfold written in Heq. simpl in Heq. inversion Heq. tauto.
    + rewrite length_insert. exact Hh.
    + apply Forall_insert; [exact Hw|]. rewrite length_insert. exact Hlen.
Qed.

Lemma place_loop_no_fuel shape blocks :
  forall rows, TetrisGrid.place_loop rows shape blocks <> OutOfFuel.
Proof.
  induction blocks as [| [x y] rest IH]; simpl; intros rows; [discriminate|].
  pose proof (py_getitem_no_fuel rows y) as Hy.
  destruct (py_getitem rows y) as [row | |]; simpl;
    [| discriminate | contradiction].
  unfold py_setitem.
  destruct (py_index row x) as [kx|]; simpl; [|discriminate].
  destruct (py_index rows y) as [ky|]; simpl; [|discriminate].
  apply IH.
Qed.

(** The two readings of a position inside the grid agree. *)
Lemma cell_at_pos g x y :
  cell g x y = at_pos g.(TetrisGrid.grid) (Z.to_nat x) (Z.to_nat y).
Proof. reflexivity. Qed.

Lemma written_target g b x y :
  wf_grid g -> 0 <= x -> 0 <= y ->
  0 < g.(TetrisGrid.width) -> 0 < g.(TetrisGrid.height) ->
  (Z.to_nat x, Z.to_nat y)
    = written (Z.to_nat g.(TetrisGrid.width)) (length g.(TetrisGrid.grid)) b
  <-> (x, y) = target g b.
Proof.
  intros [Hh _] Hx Hy Hw0 Hh0. unfold written, target. rewrite Hh.
  rewrite !Z2Nat.id by lia.
  pose proof (Z.mod_pos_bound b.1 g.(TetrisGrid.width) Hw0).
  pose proof (Z.mod_pos_bound b.2 g.(TetrisGrid.height) Hh0).
  split; intros H1; inversion H1; f_equal; lia.
Qed.

(** What [place_piece] does when it returns, on any grid of [height] rows of
    [width] cells. *)
Lemma place_piece_cells g p g' :
  wf_grid g -> TetrisGrid.place_piece g p = Ok g' ->
  Forall (indexable g) (TetrisPiece.get_blocks p)
  /\ 0 < g.(TetrisGrid.width) /\ 0 < g.(TetrisGrid.height)
  /\ forall x y, 0 <= x -> 0 <= y ->
       cell g' x y
       = if decide ((x, y) ∈ target g <$> TetrisPiece.get_blocks p)
         then Some (key p.(TetrisPiece.shape))
         else cell g x y.
Proof.
  intros Hwf H. pose proof Hwf as [Hh Hw].
  unfold TetrisGrid.place_piece in H. bind_ok H. inversion H; subst; clear H.
  destruct (place_loop_at_pos _ _ _ _ _ _ eq_refl Hw E) as [Hidx Hat].
  assert (Hidx' : Forall (indexable g) (TetrisPiece.get_blocks p)).
  { eapply Forall_impl; [exact Hidx|]. intros b [Hx Hy].
    unfold indexable. rewrite Hh in Hy. lia. }
  assert (Hpos : 0 < g.(TetrisGrid.width) /\ 0 < g.(TetrisGrid.height)).
  { pose proof (get_blocks_length p) as Hlen.
    destruct (TetrisPiece.get_blocks p) as [| b rest]; [discriminate|].
    inversion Hidx' as [| ? ? [Hx Hy] _]. lia. }
  split; [exact Hidx'|]. split; [apply Hpos|]. split; [apply Hpos|].
  intros x y Hx Hy. rewrite !cell_at_pos. simpl. rewrite Hat.
  destruct Hpos as [Hw0 Hh0].
  destruct (decide ((x, y) ∈ target g <$> TetrisPiece.get_blocks p)) as [Hin | Hnin].
  - rewrite decide_True; [reflexivity|].
    apply list_elem_of_fmap in Hin as (b & Hb & Hin).
    apply list_elem_of_fmap. exists b. split; [|exact Hin].
    apply (written_target g b x y); assumption.
  - rewrite decide_False; [reflexivity|].
    intros Hin. apply Hnin.
    apply list_elem_of_fmap in Hin as (b & Hb & Hin).
    apply list_elem_of_fmap. exists b. split; [|exact Hin].
    apply (written_target g b x y); assumption.
Qed.

Lemma key_not_empty sh : key sh <> EmptyString.
Proof. destruct sh; discriminate. Qed.

Lemma target_in_bounds g b : in_bounds g b -> target g b = b.
Proof.
  intros [Hx Hy]. unfold target. rewrite !Z.mod_small by assumption.
  destruct b; reflexivity.
Qed.

Lemma targets_in_bounds g blocks :
  Forall (in_bounds g) blocks -> target g <$> blocks = blocks.
Proof.
  induction 1 as [| b rest Hb _ IH]; [reflexivity|].
  rewrite fmap_cons, IH, (target_in_bounds g b Hb). reflexivity.
Qed.

(** X5. Placing a piece that fits returns a grid of the same dimensions in
    which each of the four cells of the piece holds the key of its shape
    and every other cell is what it was. *)
Theorem place_piece_writes_the_blocks (g : TetrisGrid.t) (p : TetrisPiece.t) :
  wf_grid g ->
  TetrisGrid.piece_fits g p = Ok true ->
  exists g' : TetrisGrid.t,
    TetrisGrid.place_piece g p = Ok g'
    /\ wf_grid g'
    /\ g'.(TetrisGrid.width) = g.(TetrisGrid.width)
    /\ g'.(TetrisGrid.height) = g.(TetrisGrid.height)
    /\ (forall x y, (x, y) ∈ TetrisPiece.get_blocks p ->
          cell g' x y = Some (key p.(TetrisPiece.shape)))
    /\ (forall x y, 0 <= x -> 0 <= y -> (x, y) ∉ TetrisPiece.get_blocks p ->
          cell g' x y = cell g x y).
Proof.
  intros Hwf Hfit.
  destruct (place_piece_total g p Hwf (fits_indexable g p Hfit)) as [g' Hg'].
  exists g'. split; [exact Hg'|].
  destruct (place_piece_shape g p g' Hwf Hg') as (Hwf' & Hw & Hh).
  split; [exact Hwf'|]. split; [exact Hw|]. split; [exact Hh|].
  destruct (place_piece_cells g p g' Hwf Hg') as (_ & _ & _ & Hcells).
  pose proof (fits_in_bounds g p Hfit) as Hin.
  rewrite (targets_in_bounds g _ Hin) in Hcells.
  split.
  - intros x y Hxy. rewrite Forall_forall in Hin.
    destruct (Hin _ Hxy) as [Hx Hy]. simpl in Hx, Hy.
    rewrite Hcells by lia. rewrite decide_True by exact Hxy. reflexivity.
  - intros x y Hx Hy Hxy. rewrite Hcells by assumption.
    rewrite decide_False by exact Hxy. reflexivity.
Qed.

Lemma place_piece_writes_the_blocks_witness :
  exists g' : TetrisGrid.t,
    TetrisGrid.place_piece (start KT).(StepTetrisGame.grid)
      (TetrisPiece.mk KT 4 1 0) = Ok g'
    /\ cell g' 5 1 = Some (key KT)
    /\ cell g' 9 15 = Some EmptyString.
Proof.
  destruct (place_piece_writes_the_blocks (start KT).(StepTetrisGame.grid)
              (TetrisPiece.mk KT 4 1 0) (start_wf KT) eq_refl)
    as (g' & Hg' & _ & _ & _ & Hin & Hout).
  exists g'. split; [exact Hg'|]. split.
  - apply Hin. by_compute.
  - rewrite Hout; [reflexivity | lia | lia | by_compute].
Defined.

(** X6. On a grid of [height] rows of [width] cells, [place_piece] raises
    [IndexError] exactly when some block of the piece has a column outside
    [-width <= x < width] or a row outside [-height <= y < height], and
    returns a grid exactly when no block has. *)
Theorem place_piece_raises_iff_not_indexable
    (g : TetrisGrid.t) (p : TetrisPiece.t) :
  wf_grid g ->
  (TetrisGrid.place_piece g p = IndexError
   <-> exists x y, (x, y) ∈ TetrisPiece.get_blocks p
         /\ ~ (- g.(TetrisGrid.width) <= x < g.(TetrisGrid.width)
               /\ - g.(TetrisGrid.height) <= y < g.(TetrisGrid.height)))
  /\ ((exists g', TetrisGrid.place_piece g p = Ok g')
      <-> forall x y, (x, y) ∈ TetrisPiece.get_blocks p ->
            - g.(TetrisGrid.width) <= x < g.(TetrisGrid.width)
            /\ - g.(TetrisGrid.height) <= y < g.(TetrisGrid.height)).
Proof.
  intros Hwf.
  assert (Hok : (exists g', TetrisGrid.place_piece g p = Ok g')
                <-> Forall (indexable g) (TetrisPiece.get_blocks p)).
  { split.
    - intros [g' Hg']. apply (place_piece_cells g p g' Hwf Hg').
    - apply place_piece_total. exact Hwf. }
  assert (Hall : Forall (indexable g) (TetrisPiece.get_blocks p)
                 <-> forall x y, (x, y) ∈ TetrisPiece.get_blocks p ->
                       - g.(TetrisGrid.width) <= x < g.(TetrisGrid.width)
                       /\ - g.(TetrisGrid.height) <= y < g.(TetrisGrid.height)).
  { rewrite Forall_forall. split.
    - intros H x y Hxy. exact (H (x, y) Hxy).
    - intros H [x y] Hxy. exact (H x y Hxy). }
  split; [|rewrite Hok; exact Hall].
  split.
  - intros Herr.
    destruct (decide (Forall (indexable g) (TetrisPiece.get_blocks p)))
      as [Hidx | Hidx].
    + apply Hok in Hidx as [g' Hg']. congruence.
    + apply not_Forall_Exists in Hidx; [|intros b; apply _].
      apply Exists_exists in Hidx as ([x y] & Hxy & Hbad).
      exists x, y. split; [exact Hxy | exact Hbad].
  - intros (x & y & Hxy & Hbad).
    destruct (TetrisGrid.place_piece g p) as [g' | |] eqn:E; [| reflexivity |].
    + exfalso. apply Hbad.
      assert (Hidx : Forall (indexable g) (TetrisPiece.get_blocks p))
        by (apply Hok; eauto).
      rewrite Forall_forall in Hidx. exact (Hidx (x, y) Hxy).
    + exfalso. unfold TetrisGrid.place_piece in E.
      pose proof (place_loop_no_fuel (key p.(TetrisPiece.shape))
                    (TetrisPiece.get_blocks p) g.(TetrisGrid.grid)) as Hnf.
      destruct (TetrisGrid.place_loop _ _ _); simpl in E;
        [discriminate | discriminate | contradiction].
Qed.

Lemma place_piece_raises_iff_not_indexable_witness :
  TetrisGrid.place_piece (start KI).(StepTetrisGame.grid)
    (TetrisPiece.mk KI 7 1 0) = IndexError.
Proof.
  apply (place_piece_raises_iff_not_indexable (start KI).(StepTetrisGame.grid)
           (TetrisPiece.mk KI 7 1 0) (start_wf KI)).
  exists 10, 0. split; [by_compute|]. simpl. lia.
Defined.

(** X7. When [place_piece] returns, on a grid of [height] rows of [width]
    cells, a block [(x, y)] has been written to column [x mod width] of row
    [y mod height]: a negative coordinate counts from the far edge, so a
    block in row -1 lands in the bottom row.  The cells that are no such
    target are what they were. *)
Theorem place_piece_wraps_negative_indices
    (g g' : TetrisGrid.t) (p : TetrisPiece.t) :
  wf_grid g ->
  TetrisGrid.place_piece g p = Ok g' ->
  (forall x y, (x, y) ∈ TetrisPiece.get_blocks p ->
     cell g' (x mod g.(TetrisGrid.width)) (y mod g.(TetrisGrid.height))
     = Some (key p.(TetrisPiece.shape)))
  /\ (forall x y, 0 <= x -> 0 <= y ->
        (forall bx by', (bx, by') ∈ TetrisPiece.get_blocks p ->
           (x, y) <> (bx mod g.(TetrisGrid.width), by' mod g.(TetrisGrid.height))) ->
        cell g' x y = cell g x y).
Proof.
  intros Hwf Hg'.
  destruct (place_piece_cells g p g' Hwf Hg') as (_ & Hw0 & Hh0 & Hcells).
  split.
  - intros x y Hxy.
    pose proof (Z.mod_pos_bound x _ Hw0). pose proof (Z.mod_pos_bound y _ Hh0).
    rewrite Hcells by lia. rewrite decide_True; [reflexivity|].
    apply list_elem_of_fmap. exists (x, y). split; [reflexivity | exact Hxy].
  - intros x y Hx Hy Hne. rewrite Hcells by assumption.
    rewrite decide_False; [reflexivity|].
    intros Hin. apply list_elem_of_fmap in Hin as ([bx by'] & Heq & Hin).
    exact (Hne bx by' Hin Heq).
Qed.

Lemma place_piece_wraps_negative_indices_witness :
  exists g' : TetrisGrid.t,
    TetrisGrid.place_piece (start KO).(StepTetrisGame.grid)
      (TetrisPiece.mk KO 4 1 0) = Ok g'
    /\ cell g' (5 mod 10) (-1 mod 16) = Some (key KO)
    /\ cell g' 5 15 = Some (key KO).
Proof.
  eexists. split; [vm_compute; reflexivity|].
  split; [|reflexivity].
  refine (proj1 (place_piece_wraps_negative_indices
                   (start KO).(StepTetrisGame.grid) _
                   (TetrisPiece.mk KO 4 1 0) (start_wf KO) _) 5 (-1) _).
  - vm_compute. reflexivity.
  - by_compute.
Defined.

Lemma fits_of_free g p :
  wf_grid g -> Forall (free g) (TetrisPiece.get_blocks p) ->
  TetrisGrid.piece_fits g p = Ok true.
Proof.
  intros Hwf Hfree.
  destruct (fits_loop_spec g (TetrisPiece.get_blocks p) Hwf) as (r & Hr & Hiff).
  unfold TetrisGrid.piece_fits. rewrite Hr. f_equal. apply Hiff. exact Hfree.
Qed.

(** X8. A locked piece takes room and gives none.  After [place_piece]
    returned, the piece it placed does not fit any more, and a piece that
    fits the new grid fitted the old one and touches none of the cells
    just written. *)
Theorem place_piece_only_takes_room
    (g g' : TetrisGrid.t) (p : TetrisPiece.t) :
  wf_grid g ->
  TetrisGrid.place_piece g p = Ok g' ->
  TetrisGrid.piece_fits g' p = Ok false
  /\ forall q, TetrisGrid.piece_fits g' q = Ok true ->
       TetrisGrid.piece_fits g q = Ok true
       /\ forall b, b ∈ TetrisPiece.get_blocks q ->
            b ∉ target g <$> TetrisPiece.get_blocks p.
Proof.
  intros Hwf Hg'.
  destruct (place_piece_shape g p g' Hwf Hg') as (Hwf' & Hw & Hh).
  destruct (place_piece_cells g p g' Hwf Hg') as (_ & _ & _ & Hcells).
  assert (Hfree : forall b, free g' b ->
            free g b /\ b ∉ target g <$> TetrisPiece.get_blocks p).
  { intros [x y] [[Hx Hy] Hc]. simpl in *.
    rewrite Hcells in Hc by lia.
    destruct (decide ((x, y) ∈ target g <$> TetrisPiece.get_blocks p))
      as [Hin | Hnin].
    - inversion Hc as [Hk]. exfalso. exact (key_not_empty _ Hk).
    - split; [|exact Hnin].
      split; [split; simpl; congruence | exact Hc]. }
  split.
  - destruct (piece_fits_total g' p Hwf') as [[|] Hr]; [|exact Hr].
    exfalso. pose proof (fits_free g' p Hwf' Hr) as Hall.
    pose proof (get_blocks_length p) as Hlen.
    destruct (TetrisPiece.get_blocks p) as [| b rest] eqn:Hb; [discriminate|].
    inversion Hall as [| ? ? Hfb _]; subst.
    destruct (Hfree b Hfb) as [[Hin _] Hnt]. apply Hnt.
    rewrite fmap_cons, (target_in_bounds g b Hin). left.
  - intros q Hq. pose proof (fits_free g' q Hwf' Hq) as Hall.
    rewrite Forall_forall in Hall. split.
    + apply (fits_of_free g q Hwf). apply Forall_forall.
      intros b Hb. apply (Hfree b (Hall b Hb)).
    + intros b Hb. apply (Hfree b (Hall b Hb)).
Qed.

Lemma place_piece_only_takes_room_witness :
  exists g' : TetrisGrid.t,
    TetrisGrid.place_piece (start KT).(StepTetrisGame.grid)
      (TetrisPiece.mk KT 4 1 0) = Ok g'
    /\ TetrisGrid.piece_fits g' (TetrisPiece.mk KT 4 1 0) = Ok false.
Proof.
  eexists. split; [vm_compute; reflexivity|].
  refine (proj1 (place_piece_only_takes_room (start KT).(StepTetrisGame.grid) _
                   (TetrisPiece.mk KT 4 1 0) (start_wf KT) _)).
  vm_compute. reflexivity.
Defined.

(** ** What a press can do *)

Lemma lock_Ok choice g p sc s' :
  StepTetrisGame.lock choice g p sc = Ok s' ->
  exists g1,
    TetrisGrid.place_piece g p = Ok g1
    /\ s' = {| StepTetrisGame.grid := (TetrisGrid.clear_full_rows g1).1;
               StepTetrisGame.piece := StepTetrisGame.get_next_piece choice;
               StepTetrisGame.score :=
                 sc + (TetrisGrid.clear_full_rows g1).2 * 100 |}.
Proof.
  unfold StepTetrisGame.lock. intros H.
  destruct (TetrisGrid.place_piece g p) as [g1 | |] eqn:E;
    cbn [mbind result_bind] in H; try discriminate.
  exists g1. split; [reflexivity|].
  destruct (TetrisGrid.clear_full_rows g1) as [g2 n]. inversion H. reflexivity.
Qed.

(** The four kinds of outcome of a press that returns. *)
Lemma run_cases a choice s s' :
  StepTetrisGame.run a choice s = Ok s' ->
  (s'.(StepTetrisGame.grid) = s.(StepTetrisGame.grid)
   /\ s'.(StepTetrisGame.score) = s.(StepTetrisGame.score)
   /\ (TetrisPiece.get_blocks s'.(StepTetrisGame.piece)
         = TetrisPiece.get_blocks s.(StepTetrisGame.piece)
       \/ TetrisGrid.piece_fits s.(StepTetrisGame.grid) s'.(StepTetrisGame.piece)
          = Ok true)
   /\ (s'.(StepTetrisGame.piece) = s.(StepTetrisGame.piece)
       \/ TetrisGrid.piece_fits s.(StepTetrisGame.grid) s'.(StepTetrisGame.piece)
          = Ok true
       \/ ~ 0 <= s.(StepTetrisGame.piece).(TetrisPiece.rot) < 4))
  \/ (exists q g1,
        StepTetrisGame.places a s q
        /\ TetrisGrid.place_piece s.(StepTetrisGame.grid) q = Ok g1
        /\ s' = {| StepTetrisGame.grid := (TetrisGrid.clear_full_rows g1).1;
                   StepTetrisGame.piece := StepTetrisGame.get_next_piece choice;
                   StepTetrisGame.score :=
                     s.(StepTetrisGame.score)
                     + (TetrisGrid.clear_full_rows g1).2 * 100 |})
  \/ (a = StepTetrisGame.ResetGame /\ s' = start choice).
Proof.
  intros H.
  assert (Hside : forall dx drot,
            (fits ← TetrisGrid.piece_fits s.(StepTetrisGame.grid)
                      (TetrisPiece.move s.(StepTetrisGame.piece) dx 0 drot);
             let q := TetrisPiece.move s.(StepTetrisGame.piece) dx 0 drot in
             let q := if negb fits then TetrisPiece.move q (- dx) 0 (- drot)
                      else q in
             Ok {| StepTetrisGame.grid := s.(StepTetrisGame.grid);
                   StepTetrisGame.piece := q;
                   StepTetrisGame.score := s.(StepTetrisGame.score) |}) = Ok s' ->
            s'.(StepTetrisGame.grid) = s.(StepTetrisGame.grid)
            /\ s'.(StepTetrisGame.score) = s.(StepTetrisGame.score)
            /\ (TetrisPiece.get_blocks s'.(StepTetrisGame.piece)
                  = TetrisPiece.get_blocks s.(StepTetrisGame.piece)
                \/ TetrisGrid.piece_fits s.(StepTetrisGame.grid)
                     s'.(StepTetrisGame.piece) = Ok true)
            /\ (s'.(StepTetrisGame.piece) = s.(StepTetrisGame.piece)
                \/ TetrisGrid.piece_fits s.(StepTetrisGame.grid)
                     s'.(StepTetrisGame.piece) = Ok true
                \/ ~ 0 <= s.(StepTetrisGame.piece).(TetrisPiece.rot) < 4)).
  { intros dx drot H'.
    destruct (attempt_blocks_or_fits _ _ _ dx drot s' H') as (Hg & Hsc & Hb).
    split; [exact Hg|]. split; [exact Hsc|]. split; [exact Hb|].
    bind_ok H'. inversion H'; subst; clear H'. simpl.
    destruct a0; simpl.
    - right; left. exact E.
    - destruct (decide (0 <= s.(StepTetrisGame.piece).(TetrisPiece.rot) < 4))
        as [Hrot | Hrot]; [left | right; right; exact Hrot].
      exact (move_undo _ dx 0 drot Hrot). }
  destruct a; simpl in H.
  - left. exact (Hside (-1) 0 H).
  - left. exact (Hside 1 0 H).
  - left. exact (Hside 0 1 H).
  - unfold StepTetrisGame.step_down in H.
    destruct (TetrisGrid.piece_fits s.(StepTetrisGame.grid)
                (TetrisPiece.move s.(StepTetrisGame.piece) 0 1 0))
      as [[|] | |] eqn:E; simpl in H; try discriminate.
    + left. inversion H; subst; clear H. simpl.
      split; [reflexivity|]. split; [reflexivity|].
      split; [right; exact E | right; left; exact E].
    + right; left. apply lock_Ok in H as (g1 & Hg1 & ->).
      eexists. exists g1. split; [|split; [exact Hg1 | reflexivity]].
      exact (StepTetrisGame.places_step_down s E).
  - unfold StepTetrisGame.drop_piece in H. bind_ok H.
    right; left. apply lock_Ok in H as (g1 & Hg1 & ->).
    eexists. exists g1. split; [|split; [exact Hg1 | reflexivity]].
    exact (StepTetrisGame.places_drop_piece s _ E).
  - right; right. unfold StepTetrisGame.reset_game in H. simpl in H.
    inversion H. split; reflexivity.
Qed.

(** ** What the grid and the score keep through a game *)

Lemma place_loop_Forall (P : string -> Prop) shape blocks :
  P shape ->
  forall rows rows',
    TetrisGrid.place_loop rows shape blocks = Ok rows' ->
    Forall (Forall P) rows -> Forall (Forall P) rows'.
Proof.
  intros Hshape.
  induction blocks as [| [x y] rest IH]; intros rows rows' H HP; simpl in H.
  - inversion H; subst. exact HP.
  - bind_ok H. bind_ok H. bind_ok H.
    apply py_getitem_Ok in E as (ky & _ & Hrow).
    apply py_setitem_Ok in E0 as (kx & _ & ->).
    apply py_setitem_Ok in E1 as (ky' & _ & ->).
    apply (IH _ _ H). apply Forall_insert; [exact HP|].
    apply Forall_insert; [|exact Hshape].
    rewrite Forall_forall in HP. apply HP. apply list_elem_of_lookup. eauto.
Qed.

Lemma place_piece_valid_cells g p g' :
  TetrisGrid.place_piece g p = Ok g' ->
  valid_cells g.(TetrisGrid.grid) -> valid_cells g'.(TetrisGrid.grid).
Proof.
  unfold TetrisGrid.place_piece. intros H Hv. bind_ok H.
  inversion H; subst; clear H. simpl.
  apply (place_loop_Forall valid_cell _ _ (or_intror (ex_intro _ _ eq_refl))
           _ _ E Hv).
Qed.

Lemma kept_rows_elem rows row :
  row ∈ List.filter TetrisGrid.has_empty_cell rows ->
  row ∈ rows /\ ~ full_row row.
Proof.
  destruct (kept_rows rows) as [-> _]. intros H.
  apply list_elem_of_filter in H. tauto.
Qed.

Lemma clear_full_rows_valid_cells g :
  valid_cells g.(TetrisGrid.grid) ->
  valid_cells (TetrisGrid.clear_full_rows g).1.(TetrisGrid.grid).
Proof.
  intros Hv. unfold valid_cells, TetrisGrid.clear_full_rows. simpl.
  apply Forall_app. split.
  - apply Forall_replicate. unfold TetrisGrid.blank_row.
    apply Forall_replicate. left. reflexivity.
  - apply Forall_forall. intros row Hrow.
    apply kept_rows_elem in Hrow as [Hrow _].
    unfold valid_cells in Hv. rewrite Forall_forall in Hv. auto.
Qed.

(** After clearing, on a grid with at least one column, no row is full. *)
Lemma clear_full_rows_no_full_row g :
  0 < g.(TetrisGrid.width) ->
  no_full_row (TetrisGrid.clear_full_rows g).1.(TetrisGrid.grid).
Proof.
  intros Hw. unfold no_full_row, TetrisGrid.clear_full_rows. simpl.
  apply Forall_app. split.
  - apply Forall_replicate. unfold TetrisGrid.blank_row, full_row.
    destruct (Z.to_nat (TetrisGrid.width g)) as [| n] eqn:En; [lia|].
    simpl. intros H. inversion H. contradiction.
  - apply Forall_forall. intros row Hrow.
    apply kept_rows_elem in Hrow as [_ Hrow]. exact Hrow.
Qed.

(** Full rows are as many as their indices, which are all in [K]. *)
Lemma full_rows_bounded rows :
  forall (off : nat) (K : list nat),
    (forall j row, rows !! j = Some row -> full_row row -> (off + j)%nat ∈ K) ->
    (length (filter full_row rows) <= length K)%nat.
Proof.
  induction rows as [| r rest IH]; intros off K HK.
  - simpl. lia.
  - destruct (decide (full_row r)) as [Hf | Hf].
    + rewrite filter_cons_True by exact Hf. simpl.
      assert (Hoff : off ∈ K).
      { specialize (HK 0%nat r eq_refl Hf). rewrite Nat.add_0_r in HK. exact HK. }
      pose proof (length_filter_lt (fun k => k <> off) K off Hoff
                    ltac:(intros H; exact (H eq_refl))) as Hlt.
      specialize (IH (S off) (filter (fun k => k <> off) K)).
      assert (Hle : (length (filter full_row rest)
                     <= length (filter (fun k => k <> off) K))%nat).
      { apply IH. intros j row Hj Hrow. apply list_elem_of_filter. split; [lia|].
        specialize (HK (S j) row Hj Hrow).
        replace (S off + j)%nat with (off + S j)%nat by lia. exact HK. }
      lia.
    + rewrite filter_cons_False by exact Hf.
      apply (IH (S off) K). intros j row Hj Hrow.
      specialize (HK (S j) row Hj Hrow).
      replace (S off + j)%nat with (off + S j)%nat by lia. exact HK.
Qed.

Lemma place_piece_at_pos g p g' :
  wf_grid g -> TetrisGrid.place_piece g p = Ok g' ->
  forall i j,
    at_pos g'.(TetrisGrid.grid) i j
    = if decide ((i, j) ∈ written (Z.to_nat g.(TetrisGrid.width))
                              (length g.(TetrisGrid.grid))
                          <$> TetrisPiece.get_blocks p)
      then Some (key p.(TetrisPiece.shape))
      else at_pos g.(TetrisGrid.grid) i j.
Proof.
  intros [Hh Hw] H. unfold TetrisGrid.place_piece in H. bind_ok H.
  inversion H; subst; clear H. simpl.
  apply (place_loop_at_pos _ _ _ _ _ _ eq_refl Hw E).
Qed.

(** Placing one piece on a grid without full rows completes at most four
    rows: a row that became full holds one of the four cells written. *)
Lemma place_then_clear_at_most_four g p g' :
  wf_grid g -> no_full_row g.(TetrisGrid.grid) ->
  TetrisGrid.place_piece g p = Ok g' ->
  0 <= (TetrisGrid.clear_full_rows g').2 <= 4.
Proof.
  intros Hwf Hnf Hg'.
  destruct (place_piece_shape g p g' Hwf Hg') as ([Hh' Hw'] & Hw & Hh).
  destruct (place_piece_cells g p g' Hwf Hg') as (_ & Hw0 & Hh0 & _).
  pose proof (place_piece_at_pos g p g' Hwf Hg') as Hat.
  destruct (kept_rows g'.(TetrisGrid.grid)) as [_ Hcount].
  assert (Hn : (TetrisGrid.clear_full_rows g').2
               = Z.of_nat (length (filter full_row g'.(TetrisGrid.grid)))).
  { unfold TetrisGrid.clear_full_rows. simpl. lia. }
  rewrite Hn. split; [lia|].
  pose proof (full_rows_bounded g'.(TetrisGrid.grid) 0
                (snd <$> (written (Z.to_nat g.(TetrisGrid.width))
                            (length g.(TetrisGrid.grid))
                          <$> TetrisPiece.get_blocks p))) as Hb.
  rewrite !length_fmap, get_blocks_length in Hb.
  enough (length (filter full_row (TetrisGrid.grid g')) <= 4)%nat by lia.
  apply Hb. clear Hb. intros j row' Hrow' Hfull. simpl.
  destruct Hwf as [Hlen Hwid].
  destruct (lookup_lt_is_Some_2 g.(TetrisGrid.grid) j) as [row Hrow].
  { apply lookup_lt_Some in Hrow'. lia. }
  assert (Hnfr : ~ full_row row).
  { unfold no_full_row in Hnf. rewrite Forall_forall in Hnf. apply Hnf.
    apply list_elem_of_lookup. eauto. }
  apply not_Forall_Exists in Hnfr; [|intros c; apply _].
  apply Exists_exists in Hnfr as (c & Hc & Hce).
  assert (c = EmptyString) as ->.
  { destruct (decide (c = EmptyString)); [assumption | contradiction]. }
  apply list_elem_of_lookup in Hc as [i Hi].
  assert (Hlr : length row = Z.to_nat g.(TetrisGrid.width)).
  { rewrite Forall_forall in Hwid. apply Hwid. apply list_elem_of_lookup. eauto. }
  assert (Hlr' : length row' = Z.to_nat g'.(TetrisGrid.width)).
  { rewrite Forall_forall in Hw'. apply Hw'. apply list_elem_of_lookup. eauto. }
  destruct (lookup_lt_is_Some_2 row' i) as [c' Hc'].
  { apply lookup_lt_Some in Hi. lia. }
  specialize (Hat i j). unfold at_pos in Hat.
  rewrite Hrow', Hrow in Hat. simpl in Hat. rewrite Hc', Hi in Hat.
  destruct (decide ((i, j) ∈ written (Z.to_nat (TetrisGrid.width g))
                              (length (TetrisGrid.grid g))
                          <$> TetrisPiece.get_blocks p)) as [Hin | Hnin].
  - apply list_elem_of_fmap. exists (i, j). split; [reflexivity | exact Hin].
  - exfalso. inversion Hat; subst c'.
    unfold full_row in Hfull. rewrite Forall_forall in Hfull.
    apply (Hfull EmptyString); [|reflexivity].
    apply list_elem_of_lookup. eauto.
Qed.

Lemma start_Inv_game choice : Inv_game (start choice).
Proof.
  unfold Inv_game. split; [|split; [|split]].
  - apply Forall_replicate. apply Forall_replicate. left. reflexivity.
  - by_compute.
  - exists 0. split; [lia | reflexivity].
  - right. reflexivity.
Qed.

Lemma run_Inv_game a choice s s' :
  Inv s -> Inv_game s -> StepTetrisGame.run a choice s = Ok s' -> Inv_game s'.
Proof.
  intros (Hwf & Hw & Hh & Hrot & _) (Hv & Hnf & (n & Hn0 & Hn) & Hp) Hrun.
  destruct (run_cases a choice s s' Hrun)
    as [(Hg & Hsc & _ & Hpiece) | [(q & g1 & _ & Hg1 & ->) | [_ ->]]].
  - unfold Inv_game. rewrite Hg, Hsc.
    split; [exact Hv|]. split; [exact Hnf|]. split; [eauto|].
    destruct Hpiece as [-> | [Hfit | Hbad]]; [exact Hp | left; exact Hfit | tauto].
  - destruct (place_piece_shape _ _ _ Hwf Hg1) as (Hwf1 & Hw1 & Hh1).
    unfold Inv_game. cbn [StepTetrisGame.grid StepTetrisGame.piece
                            StepTetrisGame.score].
    split.
    { apply clear_full_rows_valid_cells.
      exact (place_piece_valid_cells _ _ _ Hg1 Hv). }
    split; [apply clear_full_rows_no_full_row; lia|].
    split; [|right; reflexivity].
    pose proof (place_then_clear_at_most_four _ _ _ Hwf Hnf Hg1) as Hk.
    exists (n + (TetrisGrid.clear_full_rows g1).2). split; lia.
  - apply start_Inv_game.
Qed.

Lemma reachable_Inv_game s : StepTetrisGame.reachable s -> Inv_game s.
Proof.
  induction 1 as [choice s Hinit | a choice s s' Hreach IH Hrun].
  - rewrite init_start in Hinit. inversion Hinit. apply start_Inv_game.
  - exact (run_Inv_game a choice s s' (reachable_Inv s Hreach) IH Hrun).
Qed.

(** X9. In every state the program reaches the grid is the 10x16 matrix it
    was built as: sixteen rows of ten cells, every cell empty or holding the
    key of one of the seven shapes, and no row full, since a full row is
    cleared by the press that completes it. *)
Theorem grid_keeps_its_shape (s : StepTetrisGame.t) :
  StepTetrisGame.reachable s ->
  s.(StepTetrisGame.grid).(TetrisGrid.width) = 10
  /\ s.(StepTetrisGame.grid).(TetrisGrid.height) = 16
  /\ length s.(StepTetrisGame.grid).(TetrisGrid.grid) = 16%nat
  /\ Forall (fun row =>
               length row = 10%nat
               /\ Forall (fun c => c = EmptyString \/ exists sh, c = key sh) row
               /\ ~ Forall (fun c => c <> EmptyString) row)
       s.(StepTetrisGame.grid).(TetrisGrid.grid).
Proof.
  intros Hreach.
  destruct (reachable_Inv s Hreach) as ([Hlen Hwid] & Hw & Hh & _).
  destruct (reachable_Inv_game s Hreach) as (Hv & Hnf & _).
  split; [exact Hw|]. split; [exact Hh|].
  split; [rewrite Hlen, Hh; reflexivity|].
  unfold valid_cells in Hv. unfold no_full_row in Hnf.
  rewrite Forall_forall in Hwid, Hv, Hnf |- *.
  intros row Hrow. split; [rewrite (Hwid row Hrow), Hw; reflexivity|].
  split; [exact (Hv row Hrow) | exact (Hnf row Hrow)].
Qed.

Lemma grid_keeps_its_shape_witness :
  I_then_O.(StepTetrisGame.grid).(TetrisGrid.width) = 10
  /\ I_then_O.(StepTetrisGame.grid).(TetrisGrid.height) = 16
  /\ length I_then_O.(StepTetrisGame.grid).(TetrisGrid.grid) = 16%nat
  /\ Forall (fun row =>
               length row = 10%nat
               /\ Forall (fun c => c = EmptyString \/ exists sh, c = key sh) row
               /\ ~ Forall (fun c => c <> EmptyString) row)
       I_then_O.(StepTetrisGame.grid).(TetrisGrid.grid).
Proof. exact (grid_keeps_its_shape I_then_O reachable_I_then_O). Defined.

(** X10. In every state the program reaches the score is a multiple of 100
    and is not negative. *)
Theorem score_is_a_multiple_of_100 (s : StepTetrisGame.t) :
  StepTetrisGame.reachable s ->
  0 <= s.(StepTetrisGame.score) /\ s.(StepTetrisGame.score) mod 100 = 0.
Proof.
  intros Hreach.
  destruct (reachable_Inv_game s Hreach) as (_ & _ & (n & Hn0 & ->) & _).
  split; [lia | apply Z.mod_mul; lia].
Qed.

Lemma score_is_a_multiple_of_100_witness :
  0 <= topped_out.(StepTetrisGame.score)
  /\ topped_out.(StepTetrisGame.score) mod 100 = 0.
Proof. exact (score_is_a_multiple_of_100 topped_out reachable_topped_out). Defined.

(** X11. On a grid of [height] rows of [width] cells none of which is full,
    a press other than Reset that returns adds 0, 100, 200, 300 or 400 to
    the score, never more and never less than nothing: one piece completes
    at most four rows.  The three sideways presses add nothing.  Reset sets
    the score to 0. *)
Theorem press_adds_at_most_400
    (a : StepTetrisGame.Action) (choice : Shape) (s s' : StepTetrisGame.t) :
  wf_grid s.(StepTetrisGame.grid) ->
  no_full_row s.(StepTetrisGame.grid).(TetrisGrid.grid) ->
  StepTetrisGame.run a choice s = Ok s' ->
  (a = StepTetrisGame.ResetGame -> s'.(StepTetrisGame.score) = 0)
  /\ (sideways a -> s'.(StepTetrisGame.score) = s.(StepTetrisGame.score))
  /\ (a <> StepTetrisGame.ResetGame ->
      exists k, 0 <= k <= 4
        /\ s'.(StepTetrisGame.score) = s.(StepTetrisGame.score) + k * 100).
Proof.
  intros Hwf Hnf Hrun.
  split; [|split].
  - intros ->. simpl in Hrun. inversion Hrun. reflexivity.
  - intros Ha. apply (sideways_blocks_or_fits a choice s s' Ha Hrun).
  - intros Ha.
    destruct (run_cases a choice s s' Hrun)
      as [(_ & Hsc & _) | [(q & g1 & _ & Hg1 & ->) | [-> _]]].
    + exists 0. split; [lia|]. rewrite Hsc. lia.
    + exists (TetrisGrid.clear_full_rows g1).2.
      split; [|reflexivity].
      exact (place_then_clear_at_most_four _ _ _ Hwf Hnf Hg1).
    + contradiction.
Qed.

Lemma press_adds_at_most_400_witness :
  exists k, 0 <= k <= 4 /\ 500 = two_rows_short.(StepTetrisGame.score) + k * 100.
Proof.
  refine (proj2 (proj2 (press_adds_at_most_400 StepTetrisGame.StepDown KT
                          two_rows_short
                          {| StepTetrisGame.grid := (start KT).(StepTetrisGame.grid);
                             StepTetrisGame.piece := TetrisPiece.mk KT 4 1 0;
                             StepTetrisGame.score := 500 |} _ _ _)) _).
  - split; [reflexivity | by_compute].
  - by_compute.
  - vm_compute. reflexivity.
  - discriminate.
Defined.

(** X12. In every state the program reaches, the current piece fits or is
    exactly as it was spawned (x = 4, y = 1, rotation 0): no press moves or
    turns a piece into a place where it does not fit, so a piece is out of
    place only from its spawn until its first successful move. *)
Theorem unfit_piece_is_as_spawned (s : StepTetrisGame.t) :
  StepTetrisGame.reachable s ->
  TetrisGrid.piece_fits s.(StepTetrisGame.grid) s.(StepTetrisGame.piece)
    = Ok true
  \/ (TetrisGrid.piece_fits s.(StepTetrisGame.grid) s.(StepTetrisGame.piece)
        = Ok false
      /\ s.(StepTetrisGame.piece).(TetrisPiece.x) = 4
      /\ s.(StepTetrisGame.piece).(TetrisPiece.y) = 1
      /\ s.(StepTetrisGame.piece).(TetrisPiece.rot) = 0).
Proof.
  intros Hreach.
  destruct (reachable_Inv s Hreach) as (Hwf & _).
  destruct (reachable_Inv_game s Hreach) as (_ & _ & _ & [Hfit | Hsp]).
  - left. exact Hfit.
  - destruct (piece_fits_total _ s.(StepTetrisGame.piece) Hwf) as [[|] Hr].
    + left. exact Hr.
    + right. split; [exact Hr|]. rewrite Hsp. repeat split.
Qed.

Lemma unfit_piece_is_as_spawned_witness :
  TetrisGrid.piece_fits I_then_O.(StepTetrisGame.grid)
    I_then_O.(StepTetrisGame.piece) = Ok true
  \/ (TetrisGrid.piece_fits I_then_O.(StepTetrisGame.grid)
        I_then_O.(StepTetrisGame.piece) = Ok false
      /\ I_then_O.(StepTetrisGame.piece).(TetrisPiece.x) = 4
      /\ I_then_O.(StepTetrisGame.piece).(TetrisPiece.y) = 1
      /\ I_then_O.(StepTetrisGame.piece).(TetrisPiece.rot) = 0).
Proof. exact (unfit_piece_is_as_spawned I_then_O reachable_I_then_O). Defined.

(** ** Clearing again, and clearing degenerate grids *)

Lemma filter_has_empty_cell_all rows :
  no_full_row rows -> List.filter TetrisGrid.has_empty_cell rows = rows.
Proof.
  induction 1 as [| row rows Hrow _ IH]; [reflexivity|]. simpl.
  apply has_empty_cell_true in Hrow. rewrite Hrow, IH. reflexivity.
Qed.

(** X13. Clearing is idempotent on a grid that holds [height] rows of at
    least one column: after one call no row is full, so a second call
    returns 0 and changes nothing. *)
Theorem clear_full_rows_twice (g : TetrisGrid.t) :
  Z.of_nat (length g.(TetrisGrid.grid)) = g.(TetrisGrid.height) ->
  0 < g.(TetrisGrid.width) ->
  TetrisGrid.clear_full_rows (TetrisGrid.clear_full_rows g).1
  = ((TetrisGrid.clear_full_rows g).1, 0).
Proof.
  intros Hh Hw.
  pose proof (clear_full_rows_no_full_row g Hw) as Hnf.
  destruct (kept_rows g.(TetrisGrid.grid)) as [_ Hcount].
  assert (Hlen : Z.of_nat (length (TetrisGrid.clear_full_rows g).1.(TetrisGrid.grid))
                 = g.(TetrisGrid.height)).
  { unfold TetrisGrid.clear_full_rows. simpl.
    rewrite length_app, length_replicate. lia. }
  destruct (TetrisGrid.clear_full_rows g).1 as [w h rows] eqn:Eg.
  assert (Hh' : h = g.(TetrisGrid.height)).
  { apply (f_equal TetrisGrid.height) in Eg. simpl in Eg. congruence. }
  simpl in Hnf, Hlen. unfold TetrisGrid.clear_full_rows. simpl.
  rewrite (filter_has_empty_cell_all rows Hnf).
  replace (h - Z.of_nat (length rows)) with 0 by lia. reflexivity.
Qed.

Lemma clear_full_rows_twice_witness :
  TetrisGrid.clear_full_rows (TetrisGrid.clear_full_rows small_grid).1
  = ((TetrisGrid.clear_full_rows small_grid).1, 0).
Proof.
  apply (clear_full_rows_twice small_grid); [reflexivity | simpl; lia].
Defined.

Lemma rows_without_cells (rows : list (list string)) :
  Forall (fun row => length row = 0%nat) rows ->
  rows = replicate (length rows) [].
Proof.
  induction 1 as [| row rows Hrow _ IH]; [reflexivity|]. simpl.
  apply length_zero_iff_nil in Hrow. rewrite Hrow, <- IH. reflexivity.
Qed.

(** X14. The constructor accepts a width or a height that is zero or
    negative; on such a grid [clear_full_rows] changes nothing and returns
    the height.  With no column every row counts as full, since a row
    without cells has no empty cell; with a negative height the count
    returned is negative. *)
Theorem clear_full_rows_on_degenerate_grid (g : TetrisGrid.t) :
  wf_grid g ->
  g.(TetrisGrid.width) <= 0 \/ g.(TetrisGrid.height) <= 0 ->
  TetrisGrid.clear_full_rows g = (g, g.(TetrisGrid.height)).
Proof.
  intros [Hh Hw] Hdeg. destruct g as [w h rows]. simpl in *.
  assert (Hrows : rows = replicate (Z.to_nat h) []).
  { destruct Hdeg as [Hw0 | Hh0].
    - rewrite <- Hh. apply rows_without_cells.
      eapply Forall_impl; [exact Hw|]. intros row Hrow. simpl in Hrow. lia.
    - replace (Z.to_nat h) with 0%nat in * by lia.
      apply length_zero_iff_nil in Hh. exact Hh. }
  assert (Hblank : replicate (Z.to_nat h) (TetrisGrid.blank_row w) = rows).
  { destruct Hdeg as [Hw0 | Hh0].
    - unfold TetrisGrid.blank_row.
      replace (Z.to_nat w) with 0%nat by lia. simpl. symmetry. exact Hrows.
    - replace (Z.to_nat h) with 0%nat in * by lia. simpl.
      symmetry. exact Hrows. }
  assert (Hkept : List.filter TetrisGrid.has_empty_cell rows = []).
  { rewrite Hrows. clear. induction (Z.to_nat h) as [| n IH]; [reflexivity|].
    simpl. exact IH. }
  unfold TetrisGrid.clear_full_rows. simpl. rewrite Hkept. simpl.
  rewrite Z.sub_0_r, app_nil_r, Hblank. reflexivity.
Qed.

Lemma clear_full_rows_on_degenerate_grid_witness :
  TetrisGrid.clear_full_rows (TetrisGrid.mk 0 3 [[]; []; []])
  = (TetrisGrid.mk 0 3 [[]; []; []], 3)
  /\ TetrisGrid.clear_full_rows (TetrisGrid.mk 10 (-2) [])
     = (TetrisGrid.mk 10 (-2) [], -2).
Proof.
  split.
  - apply (clear_full_rows_on_degenerate_grid (TetrisGrid.mk 0 3 [[]; []; []])).
    + split; [reflexivity | by_compute].
    + left. simpl. lia.
  - apply (clear_full_rows_on_degenerate_grid (TetrisGrid.mk 10 (-2) [])).
    + split; [reflexivity | constructor].
    + right. simpl. lia.
Defined.

(** ** Where a dropped piece lands *)

Lemma lowered_0 p : lowered p 0 = p.
Proof.
  destruct p as [sh x y rot]. unfold lowered. simpl. f_equal. lia.
Qed.

Lemma lowered_lowered p n : lowered (lowered p 1) n = lowered p (S n).
Proof. unfold lowered. simpl. f_equal. lia. Qed.

Lemma move_down_lowered p :
  0 <= p.(TetrisPiece.rot) < 4 -> TetrisPiece.move p 0 1 0 = lowered p 1.
Proof. intros Hrot. rewrite (move_down p Hrot). reflexivity. Qed.

Lemma drop_loop_lands g :
  wf_grid g ->
  forall fuel p,
    (Z.to_nat (g.(TetrisGrid.height) + 3 - p.(TetrisPiece.y)) < fuel)%nat ->
    0 <= p.(TetrisPiece.rot) < 4 ->
    TetrisGrid.piece_fits g p = Ok true ->
    exists n,
      StepTetrisGame.drop_loop fuel g p = Ok (lowered p (S n))
      /\ (forall i, (i <= n)%nat ->
            TetrisGrid.piece_fits g (lowered p i) = Ok true)
      /\ TetrisGrid.piece_fits g (lowered p (S n)) = Ok false.
Proof.
  intros Hwf. induction fuel as [| fuel IH]; intros p Hf Hrot Hfit; [lia|].
  simpl. rewrite Hfit. simpl. rewrite (move_down_lowered p Hrot).
  pose proof (fits_y_bound g p Hfit) as Hy.
  assert (Hf1 : (Z.to_nat (g.(TetrisGrid.height) + 3
                           - (lowered p 1).(TetrisPiece.y)) < fuel)%nat).
  { simpl. lia. }
  destruct (piece_fits_total g (lowered p 1) Hwf) as [[|] Hfit1].
  - destruct (IH (lowered p 1) Hf1 Hrot Hfit1) as (n & Hloop & Hall & Hnot).
    exists (S n). rewrite Hloop, lowered_lowered.
    split; [reflexivity|]. split.
    + intros [| i] Hi; [rewrite lowered_0; exact Hfit|].
      rewrite <- lowered_lowered. apply Hall. lia.
    + rewrite <- lowered_lowered. exact Hnot.
  - exists 0%nat. destruct fuel as [| fuel]; [lia|]. simpl.
    rewrite Hfit1. simpl. split; [reflexivity|]. split; [|reflexivity].
    intros i Hi. replace i with 0%nat by lia. rewrite lowered_0. exact Hfit.
Qed.

(** X15. A hard drop of a piece that fits locks it as low as it can fall
    straight down: for some [n], the piece fits in each of the rows it
    passes, from where it is down to [n] rows lower, it does not fit one
    row further, and [drop_piece] returns the state obtained by placing it
    [n] rows lower, clearing the full rows, scoring and drawing the next
    piece. *)
Theorem drop_piece_lands_at_lowest_fit (choice : Shape) (s : StepTetrisGame.t) :
  wf_grid s.(StepTetrisGame.grid) ->
  0 <= s.(StepTetrisGame.piece).(TetrisPiece.rot) < 4 ->
  TetrisGrid.piece_fits s.(StepTetrisGame.grid) s.(StepTetrisGame.piece)
    = Ok true ->
  exists (n : nat) (g1 : TetrisGrid.t),
    (forall i, (i <= n)%nat ->
       TetrisGrid.piece_fits s.(StepTetrisGame.grid)
         (lowered s.(StepTetrisGame.piece) i) = Ok true)
    /\ TetrisGrid.piece_fits s.(StepTetrisGame.grid)
         (lowered s.(StepTetrisGame.piece) (S n)) = Ok false
    /\ TetrisGrid.place_piece s.(StepTetrisGame.grid)
         (lowered s.(StepTetrisGame.piece) n) = Ok g1
    /\ StepTetrisGame.drop_piece choice s
       = Ok {| StepTetrisGame.grid := (TetrisGrid.clear_full_rows g1).1;
               StepTetrisGame.piece := StepTetrisGame.get_next_piece choice;
               StepTetrisGame.score :=
                 s.(StepTetrisGame.score)
                 + (TetrisGrid.clear_full_rows g1).2 * 100 |}.
Proof.
  intros Hwf Hrot Hfit.
  destruct (drop_loop_lands _ Hwf
              (StepTetrisGame.drop_fuel s.(StepTetrisGame.grid)
                 s.(StepTetrisGame.piece))
              s.(StepTetrisGame.piece)) as (n & Hloop & Hall & Hnot);
    [unfold StepTetrisGame.drop_fuel; lia | exact Hrot | exact Hfit |].
  assert (Hback : TetrisPiece.move (lowered s.(StepTetrisGame.piece) (S n))
                    0 (-1) 0 = lowered s.(StepTetrisGame.piece) n).
  { unfold TetrisPiece.move, lowered. simpl. f_equal; try lia.
    rewrite Z.add_0_r. apply Z.mod_small. exact Hrot. }
  destruct (lock_total choice s.(StepTetrisGame.grid)
              (lowered s.(StepTetrisGame.piece) n) s.(StepTetrisGame.score) Hwf)
    as (g1 & Hg1 & Hlock).
  { apply fits_indexable. apply Hall. lia. }
  exists n, g1. split; [exact Hall|]. split; [exact Hnot|].
  split; [exact Hg1|].
  unfold StepTetrisGame.drop_piece. rewrite Hloop. cbn [mbind result_bind].
  rewrite Hback. exact Hlock.
Qed.

Lemma drop_piece_lands_at_lowest_fit_witness :
  exists (n : nat) (g1 : TetrisGrid.t),
    (forall i, (i <= n)%nat ->
       TetrisGrid.piece_fits (start KI).(StepTetrisGame.grid)
         (lowered (start KI).(StepTetrisGame.piece) i) = Ok true)
    /\ TetrisGrid.piece_fits (start KI).(StepTetrisGame.grid)
         (lowered (start KI).(StepTetrisGame.piece) (S n)) = Ok false
    /\ TetrisGrid.place_piece (start KI).(StepTetrisGame.grid)
         (lowered (start KI).(StepTetrisGame.piece) n) = Ok g1
    /\ StepTetrisGame.drop_piece KO (start KI)
       = Ok {| StepTetrisGame.grid := (TetrisGrid.clear_full_rows g1).1;
               StepTetrisGame.piece := StepTetrisGame.get_next_piece KO;
               StepTetrisGame.score :=
                 (start KI).(StepTetrisGame.score)
                 + (TetrisGrid.clear_full_rows g1).2 * 100 |}.
Proof.
  apply (drop_piece_lands_at_lowest_fit KO (start KI)).
  - apply start_wf.
  - simpl. lia.
  - reflexivity.
Defined.

(** ** What is drawn *)

Lemma draw_grid_elem rows block_size r :
  r ∈ StepTetrisGame.draw_grid rows block_size
  <-> exists i j c,
        at_pos rows i j = Some c /\ truthy c = true
        /\ r = StepTetrisGame.draw_block (Z.of_nat i) (Z.of_nat j) block_size.
Proof.
  unfold StepTetrisGame.draw_grid, at_pos. split.
  - intros H. apply list_elem_of_join in H as (l & Hr & Hl).
    apply elem_of_lookup_imap in Hl as (j & row & -> & Hrow).
    apply list_elem_of_join in Hr as (l & Hr & Hl).
    apply elem_of_lookup_imap in Hl as (i & c & -> & Hc).
    destruct (truthy c) eqn:Ht; [|inversion Hr].
    apply list_elem_of_singleton in Hr. exists i, j, c.
    rewrite Hrow. simpl. auto.
  - intros (i & j & c & Hat & Ht & ->).
    destruct (rows !! j) as [row|] eqn:Hrow; simpl in Hat; [|discriminate].
    apply list_elem_of_join. eexists. split.
    2:{ apply elem_of_lookup_imap. exists j, row. split; [reflexivity | exact Hrow]. }
    apply list_elem_of_join. eexists. split.
    2:{ apply elem_of_lookup_imap. exists i, c. split; [reflexivity | exact Hat]. }
    rewrite Ht. apply list_elem_of_singleton. reflexivity.
Qed.

Lemma draw_row_length (row : list string) :
  forall f : nat -> string -> list StepTetrisGame.rectangle,
    (forall i c, length (f i c) = if truthy c then 1%nat else 0%nat) ->
    length (mjoin (imap f row)) = length (List.filter truthy row).
Proof.
  induction row as [| c row IH]; intros f Hf; [reflexivity|].
  rewrite imap_cons. simpl. rewrite length_app, Hf.
  rewrite (IH (f ∘ S)) by (intros i c'; apply Hf).
  destruct (truthy c); reflexivity.
Qed.

Lemma draw_rows_length (rows : list (list string)) :
  forall F : nat -> list string -> list StepTetrisGame.rectangle,
    (forall j row, length (F j row) = length (List.filter truthy row)) ->
    length (mjoin (imap F rows)) = occupied rows.
Proof.
  induction rows as [| row rows IH]; intros F HF; [reflexivity|].
  rewrite imap_cons. simpl. rewrite length_app, HF.
  rewrite (IH (F ∘ S)) by (intros j row'; apply HF).
  reflexivity.
Qed.

Lemma draw_grid_length rows block_size :
  length (StepTetrisGame.draw_grid rows block_size) = occupied rows.
Proof.
  unfold StepTetrisGame.draw_grid. apply draw_rows_length.
  intros j row. apply draw_row_length.
  intros i c. destruct (truthy c); reflexivity.
Qed.

Lemma truthy_true c : truthy c = true <-> c <> EmptyString.
Proof.
  unfold truthy. rewrite negb_true_iff. apply String.eqb_neq.
Qed.

(** X16. After [update_display] the canvas holds exactly one square for
    each non-empty cell of the grid, at 30 times its column and row, and
    one for each of the four blocks of the current piece; nothing else is
    drawn, so the number of items is the number of non-empty cells plus
    four. *)
Theorem update_display_draws_cells_and_piece (s : StepTetrisGame.t) :
  (forall r,
     r ∈ StepTetrisGame.update_display s
     <-> (exists x y c,
            0 <= x /\ 0 <= y
            /\ cell s.(StepTetrisGame.grid) x y = Some c /\ c <> EmptyString
            /\ r = StepTetrisGame.mk_rectangle
                     (x * 30) (y * 30) ((x + 1) * 30) ((y + 1) * 30))
         \/ (exists x y,
               (x, y) ∈ TetrisPiece.get_blocks s.(StepTetrisGame.piece)
               /\ r = StepTetrisGame.mk_rectangle
                        (x * 30) (y * 30) ((x + 1) * 30) ((y + 1) * 30)))
  /\ length (StepTetrisGame.update_display s)
     = (occupied s.(StepTetrisGame.grid).(TetrisGrid.grid) + 4)%nat.
Proof.
  split.
  - intros r. unfold StepTetrisGame.update_display. cbv zeta.
    rewrite elem_of_app, draw_grid_elem, list_elem_of_fmap.
    split; intros [H | H].
    + left. destruct H as (i & j & c & Hat & Ht & ->).
      exists (Z.of_nat i), (Z.of_nat j), c.
      split; [lia|]. split; [lia|]. rewrite cell_at_pos, !Nat2Z.id.
      split; [exact Hat|]. split; [apply truthy_true; exact Ht | reflexivity].
    + right. destruct H as ([x y] & -> & Hin). exists x, y. auto.
    + left. destruct H as (x & y & c & Hx & Hy & Hc & Hne & ->).
      exists (Z.to_nat x), (Z.to_nat y), c. rewrite !Z2Nat.id by assumption.
      split; [exact Hc|]. split; [apply truthy_true; exact Hne | reflexivity].
    + right. destruct H as (x & y & Hin & ->). exists (x, y). auto.
  - unfold StepTetrisGame.update_display. cbv zeta.
    rewrite length_app, draw_grid_length, length_fmap, get_blocks_length.
    reflexivity.
Qed.

Lemma spawn_blocks sh :
  Forall (fun b : Z * Z => 4 <= b.1 <= 7 /\ -1 <= b.2 <= 1)
    (TetrisPiece.get_blocks (StepTetrisGame.get_next_piece sh)).
Proof. destruct sh; by_compute. Qed.

(** X17. In every state the program reaches, each square on the canvas is
    30 by 30 and lies within the 300 columns of the canvas and between 30
    above its top edge and its bottom edge at 480; when the current piece
    fits, every square is within the canvas.  Only a piece that does not
    fit, still where it was spawned, is drawn partly above the canvas. *)
Theorem update_display_within_canvas (s : StepTetrisGame.t) :
  StepTetrisGame.reachable s ->
  Forall (fun r =>
            r.(StepTetrisGame.x1) = r.(StepTetrisGame.x0) + 30
            /\ r.(StepTetrisGame.y1) = r.(StepTetrisGame.y0) + 30
            /\ 0 <= r.(StepTetrisGame.x0) /\ r.(StepTetrisGame.x1) <= 300
            /\ -30 <= r.(StepTetrisGame.y0) /\ r.(StepTetrisGame.y1) <= 480
            /\ (TetrisGrid.piece_fits s.(StepTetrisGame.grid)
                  s.(StepTetrisGame.piece) = Ok true ->
                0 <= r.(StepTetrisGame.y0)))
    (StepTetrisGame.update_display s).
Proof.
  intros Hreach.
  destruct (reachable_Inv s Hreach) as ([Hlen Hwid] & Hw & Hh & _).
  destruct (reachable_Inv_game s Hreach) as (_ & _ & _ & Hp).
  apply Forall_forall. intros r Hr.
  unfold StepTetrisGame.update_display in Hr. cbv zeta in Hr.
  apply elem_of_app in Hr as [Hr | Hr].
  - apply draw_grid_elem in Hr as (i & j & c & Hat & _ & ->).
    unfold at_pos in Hat.
    destruct (TetrisGrid.grid (StepTetrisGame.grid s) !! j) as [row|] eqn:Hrow;
      simpl in Hat; [|discriminate].
    pose proof (lookup_lt_Some _ _ _ Hrow) as Hj.
    pose proof (lookup_lt_Some _ _ _ Hat) as Hi.
    assert (Hlr : length row = Z.to_nat (TetrisGrid.width (StepTetrisGame.grid s))).
    { rewrite Forall_forall in Hwid. apply Hwid. apply list_elem_of_lookup. eauto. }
    simpl. repeat split; lia.
  - apply list_elem_of_fmap in Hr as ([x y] & -> & Hin). simpl.
    assert (Hb : 0 <= x < 10 /\ -1 <= y < 16
                 /\ (TetrisGrid.piece_fits s.(StepTetrisGame.grid)
                       s.(StepTetrisGame.piece) = Ok true -> 0 <= y)).
    { assert (Hfitb : TetrisGrid.piece_fits s.(StepTetrisGame.grid)
                        s.(StepTetrisGame.piece) = Ok true ->
                      0 <= x < 10 /\ 0 <= y < 16).
      { intros Hfit. apply fits_in_bounds in Hfit.
        rewrite Forall_forall in Hfit. destruct (Hfit _ Hin) as [Hx Hy].
        simpl in Hx, Hy. lia. }
      destruct Hp as [Hfit | Hsp].
      - specialize (Hfitb Hfit). repeat split; try lia.
      - pose proof (spawn_blocks s.(StepTetrisGame.piece).(TetrisPiece.shape))
          as Hsb.
        rewrite <- Hsp in Hsb. rewrite Forall_forall in Hsb.
        specialize (Hsb _ Hin). simpl in Hsb.
        split; [lia|]. split; [lia|]. intros Hfit. specialize (Hfitb Hfit). lia. }
    destruct Hb as (Hx & Hy & Hy0).
    repeat split; try lia. intros Hfit. specialize (Hy0 Hfit). lia.
Qed.

Lemma update_display_within_canvas_witness :
  Forall (fun r =>
            r.(StepTetrisGame.x1) = r.(StepTetrisGame.x0) + 30
            /\ r.(StepTetrisGame.y1) = r.(StepTetrisGame.y0) + 30
            /\ 0 <= r.(StepTetrisGame.x0) /\ r.(StepTetrisGame.x1) <= 300
            /\ -30 <= r.(StepTetrisGame.y0) /\ r.(StepTetrisGame.y1) <= 480
            /\ (TetrisGrid.piece_fits I_then_O.(StepTetrisGame.grid)
                  I_then_O.(StepTetrisGame.piece) = Ok true ->
                0 <= r.(StepTetrisGame.y0)))
    (StepTetrisGame.update_display I_then_O).
Proof. exact (update_display_within_canvas I_then_O reachable_I_then_O). Defined.

(** ** Counting the non-empty cells *)

Lemma occupied_cons row rows :
  occupied (row :: rows) = (length (List.filter truthy row) + occupied rows)%nat.
Proof. reflexivity. Qed.

Lemma occupied_app rows1 rows2 :
  occupied (rows1 ++ rows2) = (occupied rows1 + occupied rows2)%nat.
Proof.
  induction rows1 as [| row rows1 IH]; [reflexivity|].
  rewrite <- app_comm_cons, !occupied_cons, IH. lia.
Qed.

Lemma occupied_blank n w : occupied (replicate n (TetrisGrid.blank_row w)) = 0%nat.
Proof.
  induction n as [| n IH]; [reflexivity|]. simpl replicate.
  rewrite occupied_cons, IH. unfold TetrisGrid.blank_row.
  induction (Z.to_nat w) as [| m IHm]; [reflexivity | exact IHm].
Qed.

Lemma filter_truthy_insert (row : list string) :
  forall kx v,
    row !! kx = Some EmptyString -> truthy v = true ->
    length (List.filter truthy (<[kx := v]> row))
    = S (length (List.filter truthy row)).
Proof.
  induction row as [| c row IH]; intros kx v Hkx Hv; [discriminate|].
  destruct kx as [| kx]; simpl in *.
  - inversion Hkx; subst c. rewrite Hv. reflexivity.
  - destruct (truthy c); simpl; rewrite (IH kx v Hkx Hv); reflexivity.
Qed.

Lemma occupied_insert (rows : list (list string)) :
  forall ky row row',
    rows !! ky = Some row ->
    length (List.filter truthy row') = S (length (List.filter truthy row)) ->
    occupied (<[ky := row']> rows) = S (occupied rows).
Proof.
  induction rows as [| r rows IH]; intros ky row row' Hky Hlen; [discriminate|].
  destruct ky as [| ky]; simpl in Hky |- *.
  - inversion Hky; subst r. rewrite !occupied_cons, Hlen. reflexivity.
  - rewrite !occupied_cons, (IH ky row row' Hky Hlen). lia.
Qed.

Lemma place_loop_occupied (w h : nat) shape blocks :
  truthy shape = true ->
  forall rows rows',
    length rows = h ->
    Forall (fun row => length row = w) rows ->
    NoDup blocks ->
    Forall (fun b : Z * Z =>
              0 <= b.1 < Z.of_nat w /\ 0 <= b.2 < Z.of_nat h
              /\ at_pos rows (Z.to_nat b.1) (Z.to_nat b.2) = Some EmptyString)
           blocks ->
    TetrisGrid.place_loop rows shape blocks = Ok rows' ->
    occupied rows' = (occupied rows + length blocks)%nat.
Proof.
  intros Hshape.
  induction blocks as [| [x y] rest IH]; intros rows rows' Hh Hw Hnd Hfree H;
    simpl in H.
  - inversion H; subst. simpl. lia.
  - inversion Hnd as [| ? ? Hnin Hnd']; subst.
    inversion Hfree as [| ? ? (Hx & Hy & Hc) Hfree']; subst. simpl in Hx, Hy, Hc.
    bind_ok H. bind_ok H. bind_ok H.
    apply py_getitem_Ok in E as (ky & Hky & Hrow).
    apply py_setitem_Ok in E0 as (kx & Hkx & ->).
    apply py_setitem_Ok in E1 as (ky' & Hky' & ->).
    rewrite Hky in Hky'. inversion Hky'; subst ky'; clear Hky'.
    assert (Hlen : length a = w).
    { rewrite Forall_forall in Hw. apply Hw. apply list_elem_of_lookup. eauto. }
    apply py_index_spec in Hky as [_ ->]. apply py_index_spec in Hkx as [_ ->].
    rewrite Hlen in *.
    rewrite (Z.mod_small x) in * by lia. rewrite (Z.mod_small y) in * by lia.
    unfold at_pos in Hc. rewrite Hrow in Hc. simpl in Hc.
    apply IH in H.
    + rewrite H.
      rewrite (occupied_insert rows _ a _ Hrow
                 (filter_truthy_insert a _ shape Hc Hshape)).
      simpl. lia.
    + rewrite length_insert. reflexivity.
    + apply Forall_insert; [exact Hw|]. rewrite length_insert. exact Hlen.
    + exact Hnd'.
    + rewrite Forall_forall in Hfree' |- *. intros [x' y'] Hin.
      destruct (Hfree' _ Hin) as (Hx' & Hy' & Hc'). simpl in Hx', Hy', Hc' |- *.
      split; [exact Hx'|]. split; [exact Hy'|].
      rewrite at_pos_insert;
        [| exact Hrow | apply lookup_lt_Some in Hc; exact Hc].
      rewrite decide_False; [exact Hc'|].
      intros [Hex Hey]. apply Hnin.
      assert (x' = x) by lia. assert (y' = y) by lia. subst. exact Hin.
Qed.

Lemma get_blocks_NoDup p : NoDup (TetrisPiece.get_blocks p).
Proof.
  rewrite get_blocks_offsets.
  apply (NoDup_fmap_2 (at_offset _ _)).
  apply offsets_table, mod4_cases.
Qed.

Lemma full_row_occupied row :
  full_row row -> length (List.filter truthy row) = length row.
Proof.
  induction 1 as [| c row Hc _ IH]; [reflexivity|]. simpl.
  apply truthy_true in Hc. rewrite Hc. simpl. rewrite IH. reflexivity.
Qed.

Lemma occupied_kept (w : nat) rows :
  Forall (fun row => length row = w) rows ->
  occupied rows
  = (occupied (List.filter TetrisGrid.has_empty_cell rows)
     + w * length (filter full_row rows))%nat.
Proof.
  induction 1 as [| row rows Hrow _ IH]; [rewrite filter_nil; unfold occupied; simpl; lia|].
  rewrite occupied_cons. simpl.
  destruct (TetrisGrid.has_empty_cell row) eqn:He.
  - apply has_empty_cell_true in He.
    rewrite (filter_cons_False full_row) by exact He.
    rewrite occupied_cons, IH. lia.
  - apply has_empty_cell_false in He.
    rewrite (filter_cons_True full_row) by exact He.
    rewrite (full_row_occupied row He), Hrow, IH. simpl. lia.
Qed.

(** X18. Locking conserves blocks.  Placing a piece that fits makes exactly
    four more cells non-empty, and clearing removes [width] non-empty cells
    for each row it counts: after both, the number of non-empty cells is
    the number before, plus four, minus [width] times the number of rows
    cleared. *)
Theorem lock_conserves_cells (g : TetrisGrid.t) (p : TetrisPiece.t) :
  wf_grid g ->
  TetrisGrid.piece_fits g p = Ok true ->
  exists g1 : TetrisGrid.t,
    TetrisGrid.place_piece g p = Ok g1
    /\ occupied g1.(TetrisGrid.grid) = (occupied g.(TetrisGrid.grid) + 4)%nat
    /\ Z.of_nat (occupied (TetrisGrid.clear_full_rows g1).1.(TetrisGrid.grid))
       = Z.of_nat (occupied g.(TetrisGrid.grid)) + 4
         - g.(TetrisGrid.width) * (TetrisGrid.clear_full_rows g1).2.
Proof.
  intros Hwf Hfit.
  destruct (place_piece_total g p Hwf (fits_indexable g p Hfit)) as [g1 Hg1].
  destruct (place_piece_shape g p g1 Hwf Hg1) as ([Hh1 Hw1] & Hw & Hh).
  destruct (place_piece_cells g p g1 Hwf Hg1) as (_ & Hw0 & Hh0 & _).
  exists g1. split; [exact Hg1|].
  assert (Hocc : occupied g1.(TetrisGrid.grid)
                 = (occupied g.(TetrisGrid.grid) + 4)%nat).
  { pose proof Hwf as [Hlen Hwid].
    pose proof Hg1 as Hplace. unfold TetrisGrid.place_piece in Hplace.
    bind_ok Hplace. inversion Hplace; subst; clear Hplace. simpl.
    rewrite <- (get_blocks_length p).
    apply (place_loop_occupied (Z.to_nat g.(TetrisGrid.width))
             (length g.(TetrisGrid.grid)) (key p.(TetrisPiece.shape))
             (TetrisPiece.get_blocks p));
      [destruct (TetrisPiece.shape p); reflexivity | reflexivity | exact Hwid
      | apply get_blocks_NoDup | | exact E].
    pose proof (fits_free g p Hwf Hfit) as Hfree.
    eapply Forall_impl; [exact Hfree|].
    intros [x y] [[Hx Hy] Hc]. simpl in *.
    split; [lia|]. split; [lia|]. exact Hc. }
  split; [exact Hocc|].
  destruct (kept_rows g1.(TetrisGrid.grid)) as [_ Hcount].
  pose proof (occupied_kept _ _ Hw1) as Hkept.
  unfold TetrisGrid.clear_full_rows. simpl.
  rewrite occupied_app, occupied_blank. simpl.
  assert (Hk : TetrisGrid.height g1
               - Z.of_nat (length (List.filter TetrisGrid.has_empty_cell
                                     (TetrisGrid.grid g1)))
               = Z.of_nat (length (filter full_row (TetrisGrid.grid g1)))) by lia.
  rewrite Hk.
  assert (Hmul : Z.of_nat (Z.to_nat (TetrisGrid.width g1)
                           * length (filter full_row (TetrisGrid.grid g1)))
                 = TetrisGrid.width g
                   * Z.of_nat (length (filter full_row (TetrisGrid.grid g1)))).
  { rewrite Nat2Z.inj_mul, Z2Nat.id by lia. rewrite Hw. reflexivity. }
  lia.
Qed.

Lemma lock_conserves_cells_witness :
  exists g1 : TetrisGrid.t,
    TetrisGrid.place_piece two_rows_short.(StepTetrisGame.grid)
      (TetrisPiece.mk KO 4 16 0) = Ok g1
    /\ occupied g1.(TetrisGrid.grid)
       = (occupied two_rows_short.(StepTetrisGame.grid).(TetrisGrid.grid) + 4)%nat
    /\ Z.of_nat (occupied (TetrisGrid.clear_full_rows g1).1.(TetrisGrid.grid))
       = Z.of_nat (occupied two_rows_short.(StepTetrisGame.grid).(TetrisGrid.grid))
         + 4
         - two_rows_short.(StepTetrisGame.grid).(TetrisGrid.width)
           * (TetrisGrid.clear_full_rows g1).2.
Proof.
  apply (lock_conserves_cells two_rows_short.(StepTetrisGame.grid)
           (TetrisPiece.mk KO 4 16 0)).
  - split; [reflexivity | by_compute].
  - vm_compute. reflexivity.
Defined.

(** ** A hard drop of a piece that fits *)

(** More presses allowed do not change the state in which the repeated
    [step_down] stops. *)
Lemma step_down_until_lock_more_fuel choice :
  forall fuel s s',
    step_down_until_lock fuel choice s = Ok s' ->
    forall fuel', (fuel <= fuel')%nat ->
      step_down_until_lock fuel' choice s = Ok s'.
Proof.
  induction fuel as [| fuel IH]; intros s s' H fuel' Hle; [discriminate|].
  destruct fuel' as [| fuel']; [lia|].
  simpl in H |- *.
  destruct (TetrisGrid.piece_fits s.(StepTetrisGame.grid)
              (TetrisPiece.move s.(StepTetrisGame.piece) 0 1 0))
    as [[|] | |]; cbn [mbind result_bind] in H |- *; try discriminate.
  - destruct (StepTetrisGame.step_down choice s) as [s1 | |];
      cbn [mbind result_bind] in H |- *; try discriminate.
    apply (IH s1 s' H). lia.
  - exact H.
Qed.

(** X19. For a piece that fits, on a grid of [height] rows of [width]
    cells and with a rotation index in [0,4), one [drop_piece] returns the
    very state in which [step_down], pressed again and again, stops after
    the press that locks: same grid, same score, same next piece.  It takes
    at most [height + 3 - y] presses, and allowing more changes nothing. *)
Theorem hard_drop_is_repeated_step_down (choice : Shape) (s : StepTetrisGame.t) :
  wf_grid s.(StepTetrisGame.grid) ->
  0 <= s.(StepTetrisGame.piece).(TetrisPiece.rot) < 4 ->
  TetrisGrid.piece_fits s.(StepTetrisGame.grid) s.(StepTetrisGame.piece)
    = Ok true ->
  exists s' : StepTetrisGame.t,
    StepTetrisGame.drop_piece choice s = Ok s'
    /\ forall presses : nat,
         (Z.to_nat (s.(StepTetrisGame.grid).(TetrisGrid.height) + 3
                    - s.(StepTetrisGame.piece).(TetrisPiece.y)) <= presses)%nat ->
         step_down_until_lock presses choice s = Ok s'.
Proof.
  intros Hwf Hrot Hfit.
  destruct (drop_piece_as_steps choice s Hwf Hrot Hfit) as (s' & Hdrop & Hsteps).
  exists s'. split; [exact Hdrop|].
  intros presses Hle.
  exact (step_down_until_lock_more_fuel choice _ s s' Hsteps presses Hle).
Qed.

Lemma hard_drop_is_repeated_step_down_witness :
  exists s' : StepTetrisGame.t,
    StepTetrisGame.drop_piece KO (start KT) = Ok s'
    /\ forall presses : nat,
         (Z.to_nat ((start KT).(StepTetrisGame.grid).(TetrisGrid.height) + 3
                    - (start KT).(StepTetrisGame.piece).(TetrisPiece.y))
          <= presses)%nat ->
         step_down_until_lock presses KO (start KT) = Ok s'.
Proof.
  apply (hard_drop_is_repeated_step_down KO (start KT)).
  - apply start_wf.
  - simpl. lia.
  - reflexivity.
Defined.
